(** * Support chatbot: answer extraction, response composer, warranty cache

    Shallow embedding of the JavaScript sources
      - backend/server.js  (getAnswerFromData, getImprovedMockResponse,
                            getHuggingFaceResponse)
      - backend/scraper.js (fetchWarrantyFromWebsite, getWarrantyWithCache,
                            clearWarrantyCache)

    Strings are sequences of code units below 256 (Latin-1), written as
    [list ascii]; [null] is [None].  Numbers that the code only counts with
    are [nat]; the clock is [Z] milliseconds.  The numbers the code computes
    with (the Q&A score, the wait of the responder) are binary64 numbers:
    each is written as the rational it denotes and every operation rounds
    its exact result to the nearest binary64 number ([Float64]). *)

From Stdlib Require Import List Ascii String Bool Arith NArith ZArith QArith Lia.
From Stdlib Require PrimFloat FloatOps SpecFloat Uint63.
Import ListNotations.
Close Scope Q_scope.
Open Scope list_scope.
Open Scope bool_scope.

(** [length] is the one of lists throughout. *)
Abbreviation length := List.length (only parsing).

(* ================================================================== *)
(** ** String primitives of the host language *)
(* ================================================================== *)

Module Str.

Definition str := list ascii.

Definition lit (s : string) : str := list_ascii_of_string s.

Definition code (c : ascii) : N := N_of_ascii c.

Definition nl : ascii := "010"%char.

Definition chEq (a b : ascii) : bool := Ascii.eqb a b.

(** [A-Z] *)
Definition isUpperAZ (c : ascii) : bool :=
  (65 <=? code c)%N && (code c <=? 90)%N.

(** \d *)
Definition isDigit (c : ascii) : bool :=
  (48 <=? code c)%N && (code c <=? 57)%N.

(** \s, and the characters String.prototype.trim removes: TAB LF VT FF CR
    SPACE and NBSP are the ones below 256. *)
Definition isSpace (c : ascii) : bool :=
  match code c with
  | 9%N | 10%N | 11%N | 12%N | 13%N | 32%N | 160%N => true
  | _ => false
  end.

(** The characters [.] does not match. *)
Definition isLineTerminator (c : ascii) : bool :=
  match code c with
  | 10%N | 13%N => true
  | _ => false
  end.

(** Upper-case letters of Latin-1 outside ASCII: U+00C0..U+00DE but U+00D7. *)
Definition isUpperLatin (c : ascii) : bool :=
  (192 <=? code c)%N && (code c <=? 222)%N && negb (code c =? 215)%N.

Definition lowerChar (c : ascii) : ascii :=
  if isUpperAZ c || isUpperLatin c then ascii_of_N (code c + 32) else c.

(** String.prototype.toLowerCase *)
Definition toLowerCase (s : str) : str := map lowerChar s.

(** Case folding of the [i] flag, for patterns made of ASCII characters:
    only A-Z and a-z are identified. *)
Definition foldAZ (c : ascii) : ascii :=
  if isUpperAZ c then ascii_of_N (code c + 32) else c.

Fixpoint strEq (a b : str) : bool :=
  match a, b with
  | [], [] => true
  | x :: a', y :: b' => chEq x y && strEq a' b'
  | _, _ => false
  end.

(** String.prototype.startsWith *)
Fixpoint startsWith (s p : str) : bool :=
  match p, s with
  | [], _ => true
  | _ :: _, [] => false
  | y :: p', x :: s' => chEq x y && startsWith s' p'
  end.

(** String.prototype.includes *)
Fixpoint includes (s sub : str) : bool :=
  startsWith s sub ||
  match s with
  | [] => false
  | _ :: s' => includes s' sub
  end.

(** [stripPrefix p s] is what follows [p] when [s] starts with [p]. *)
Fixpoint stripPrefix (p s : str) : option str :=
  match p, s with
  | [], _ => Some s
  | _ :: _, [] => None
  | y :: p', x :: s' => if chEq x y then stripPrefix p' s' else None
  end.

(** The same for a pattern under the [i] flag. *)
Fixpoint stripPrefixCI (p s : str) : option str :=
  match p, s with
  | [], _ => Some s
  | _ :: _, [] => None
  | y :: p', x :: s' =>
      if chEq (foldAZ x) (foldAZ y) then stripPrefixCI p' s' else None
  end.

Definition startsWithCI (s p : str) : bool :=
  match stripPrefixCI p s with Some _ => true | None => false end.

(** [/p/i.test(s)] for a literal [p]. *)
Fixpoint includesCI (s p : str) : bool :=
  startsWithCI s p ||
  match s with
  | [] => false
  | _ :: s' => includesCI s' p
  end.

Fixpoint dropWhile (f : ascii -> bool) (s : str) : str :=
  match s with
  | [] => []
  | c :: s' => if f c then dropWhile f s' else s
  end.

Fixpoint takeWhile (f : ascii -> bool) (s : str) : str :=
  match s with
  | [] => []
  | c :: s' => if f c then c :: takeWhile f s' else []
  end.

Definition trimStart (s : str) : str := dropWhile isSpace s.
Definition trimEnd (s : str) : str := rev (dropWhile isSpace (rev s)).

(** String.prototype.trim *)
Definition trim (s : str) : str := trimEnd (trimStart s).

Definition consHead (c : ascii) (l : list str) : list str :=
  match l with
  | h :: t => (c :: h) :: t
  | [] => [[c]]
  end.

(** [s.split(c)] for a one-character separator: the empty string gives one
    empty piece. *)
Fixpoint splitChar (sep : ascii) (s : str) : list str :=
  match s with
  | [] => [[]]
  | c :: s' =>
      if chEq c sep then [] :: splitChar sep s'
      else consHead c (splitChar sep s')
  end.

(** [s.split(/[class]+/)]: pieces between maximal runs of separator
    characters; a separator at either end leaves an empty piece there. *)
Fixpoint splitRuns (sep : ascii -> bool) (inSep : bool) (s : str) : list str :=
  match s with
  | [] => [[]]
  | c :: s' =>
      if sep c then
        if inSep then splitRuns sep true s' else [] :: splitRuns sep true s'
      else consHead c (splitRuns sep false s')
  end.

(** [s.split(/\s+/)] *)
Definition splitWs (s : str) : list str := splitRuns isSpace false s.

Definition isSentenceEnd (c : ascii) : bool :=
  chEq c "."%char || chEq c "!"%char || chEq c "?"%char.

(** [s.split(/[.!?]+/)] *)
Definition splitSentences (s : str) : list str := splitRuns isSentenceEnd false s.

(** [s.split(/\n\n+/)]: a separator is a run of two or more line feeds. *)
Fixpoint splitParas (inSep : bool) (s : str) : list str :=
  match s with
  | [] => [[]]
  | c :: s' =>
      if chEq c nl then
        if inSep then splitParas true s'
        else
          match s' with
          | c2 :: s'' =>
              if chEq c2 nl then [] :: splitParas true s''
              else consHead c (splitParas false s')
          | [] => consHead c (splitParas false s')
          end
      else consHead c (splitParas false s')
  end.

(** Array.prototype.join *)
Fixpoint join (sep : str) (l : list str) : str :=
  match l with
  | [] => []
  | [x] => x
  | x :: l' => x ++ sep ++ join sep l'
  end.

(** [s.replace(p, '')] for a literal [p]: the first occurrence goes. *)
Fixpoint removeFirst (p s : str) : str :=
  match stripPrefix p s with
  | Some r => r
  | None =>
      match s with
      | [] => []
      | c :: s' => c :: removeFirst p s'
      end
  end.

(** [s.replace(/^p\s*/, '')] for a literal [p]. *)
Definition stripLabel (p s : str) : str :=
  match stripPrefix p s with
  | Some r => dropWhile isSpace r
  | None => s
  end.

(** Truthiness of a string. *)
Definition truthy (s : str) : bool :=
  match s with [] => false | _ :: _ => true end.

Definition unlines (l : list str) : str := join [nl] l.

End Str.

Import Str.

(* ================================================================== *)
(** ** Numbers of the host language *)
(* ================================================================== *)

Module Float64.

(** A number is a binary64 floating point number, written as the rational
    it denotes.  [round] takes the exact result of an operation to the
    nearest number with 53 binary digits (or, below 2^-1022, the nearest
    multiple of 2^-1074), a tie going to the one whose last digit is even.
    Infinity and NaN have no rational: beyond 2^1024, where the code has
    Infinity, [round] goes on with 53 digits, and the one division of this
    development is made under the test that the divisor is not 0. *)

(** The integer nearest to P / D, for D > 0, a tie going to the even one. *)
Definition roundHalfEven (P D : Z) : Z :=
  let f := (P / D)%Z in
  match (2 * (P mod D) ?= D)%Z with
  | Lt => f
  | Gt => (f + 1)%Z
  | Eq => if Z.even f then f else (f + 1)%Z
  end.

(** The e with 2^e <= n / d < 2^(e+1), for n > 0. *)
Definition exponentOf (n : Z) (d : positive) : Z :=
  let e0 := (Z.log2 n - Z.log2 (Zpos d))%Z in
  let below :=
    if (0 <=? e0)%Z then (n <? Zpos d * 2 ^ e0)%Z
    else (n * 2 ^ (- e0) <? Zpos d)%Z in
  if below then (e0 - 1)%Z else e0.

(** m * 2^u, in lowest terms. *)
Definition scaled (m u : Z) : Q :=
  if (0 <=? u)%Z then inject_Z (m * 2 ^ u)
  else Qred (m # Z.to_pos (2 ^ (- u))).

Definition roundReduced (q : Q) : Q :=
  let n := Z.abs (Qnum q) in
  let d := Qden q in
  if (n =? 0)%Z then 0%Q
  else
    let u := Z.max (exponentOf n d - 52) (-1074) in
    let m :=
      if (0 <=? u)%Z then roundHalfEven n (Zpos d * 2 ^ u)
      else roundHalfEven (n * 2 ^ (- u)) (Zpos d) in
    scaled (Z.sgn (Qnum q) * m) u.

Definition round (q : Q) : Q := roundReduced (Qred q).

(** [a + b], [a - b], [a * b], [a / b] of the host language. *)
Definition add (a b : Q) : Q := round (a + b).
Definition sub (a b : Q) : Q := round (a - b).
Definition mul (a b : Q) : Q := round (a * b).
Definition div (a b : Q) : Q := round (a / b).

(** The number of a count: a length is below 2^32, a number as it stands. *)
Definition ofNat (n : nat) : Q := inject_Z (Z.of_nat n).

End Float64.

(* ================================================================== *)
(** ** server.js: getAnswerFromData *)
(* ================================================================== *)

Module Extract.

(** *** Stage 1: product matcher *)

(** The [productKeywords] table, in the order of its entries. *)
Definition productKeywords : list (str * list str) :=
  [ (lit "tablet", [lit "tablet"; lit "tab"]);
    (lit "smartphone", [lit "smartphone"; lit "phone"; lit "galaxy"]);
    (lit "watch", [lit "watch"; lit "gear"]);
    (lit "buds", [lit "buds"; lit "headphone"; lit "earphone"]);
    (lit "charger", [lit "charger"]);
    (lit "battery", [lit "battery"]);
    (lit "s pen", [lit "s pen"; lit "spen"; lit "pen"]);
    (lit "strap", [lit "strap"; lit "band"]);
    (lit "ring", [lit "ring"; lit "galaxy ring"]);
    (lit "cooker hood", [lit "cooker hood"; lit "hood"; lit "cooker"]);
    (lit "vacuum cleaners",
      [lit "vacuum cleaners"; lit "vacuum cleaner"; lit "vacuum";
       lit "robotic vacuum"]);
    (lit "robotic vacuum cleaners",
      [lit "robotic vacuum cleaners"; lit "robotic vacuum"]);
    (lit "monitor",
      [lit "monitor"; lit "monitors"; lit "display";
       lit "monitor for consumers"]);
    (lit "large format display",
      [lit "large format display"; lit "large format"]);
    (lit "set back box", [lit "set back box"; lit "sbb"; lit "back box"]);
    (lit "oled monitor",
      [lit "oled monitor"; lit "oled monitor for consumers"; lit "oled"]) ].

(** The loop over [Object.entries(productKeywords)] with its [break]. *)
Fixpoint findProduct (table : list (str * list str)) (message : str)
  : option str :=
  match table with
  | [] => None
  | (product, keywords) :: table' =>
      if existsb (fun keyword => includes message keyword) keywords
      then Some product
      else findProduct table' message
  end.

(** [/^[A-Z\s]+:$/] *)
Definition isHeaderChar (c : ascii) : bool := isUpperAZ c || isSpace c.

Fixpoint headerRest (s : str) : bool :=
  match s with
  | [] => false
  | [c] => chEq c ":"%char
  | c :: s' => isHeaderChar c && headerRest s'
  end.

Definition isHeader (s : str) : bool :=
  match s with
  | [] => false
  | c :: s' => isHeaderChar c && headerRest s'
  end.

(** The condition under which a header line opens the product's section. *)
Definition headerMatches (matchedProduct productName : str) : bool :=
  let mp := strEq matchedProduct in
  let has := includes productName in
  has matchedProduct ||
  (mp (lit "tablet") && strEq productName (lit "tablet")) ||
  (mp (lit "smartphone") && (has (lit "smartphone") || has (lit "phone"))) ||
  (mp (lit "watch") && (has (lit "watch") || has (lit "gear"))) ||
  (mp (lit "buds") && (has (lit "buds") || has (lit "headphone"))) ||
  (mp (lit "charger") && has (lit "charger")) ||
  (mp (lit "battery") && has (lit "battery")) ||
  (mp (lit "s pen") && has (lit "pen")) ||
  (mp (lit "strap") && has (lit "strap")) ||
  (mp (lit "ring") && has (lit "ring")) ||
  (mp (lit "cooker hood") && (has (lit "cooker hood") || has (lit "hood"))) ||
  (mp (lit "vacuum cleaners") && (has (lit "vacuum") || has (lit "cleaner"))) ||
  (mp (lit "robotic vacuum cleaners") &&
     (has (lit "robotic vacuum") || has (lit "robotic"))) ||
  (mp (lit "monitor") && (has (lit "monitor") || has (lit "display"))) ||
  (mp (lit "large format display") &&
     (has (lit "large format") || has (lit "format display"))) ||
  (mp (lit "set back box") &&
     (has (lit "set back box") || has (lit "sbb") || has (lit "back box"))) ||
  (mp (lit "oled monitor") && (has (lit "oled monitor") || has (lit "oled"))).

(** [/Warranty period:\s*(\d+)\s*Months?/i] tried at the start of [s]; the
    result is the capture group.  The greedy runs cannot give characters
    back: what follows a run of blanks is not a blank, what follows a run of
    digits is not a digit. *)
Definition periodAt (s : str) : option str :=
  match stripPrefixCI (lit "Warranty period:") s with
  | None => None
  | Some r =>
      let r1 := dropWhile isSpace r in
      match takeWhile isDigit r1 with
      | [] => None
      | ds =>
          if startsWithCI (dropWhile isSpace (dropWhile isDigit r1)) (lit "Month")
          then Some ds else None
      end
  end.

(** The leftmost match of that pattern in [s]. *)
Fixpoint findPeriod (s : str) : option str :=
  match periodAt s with
  | Some ds => Some ds
  | None =>
      match s with
      | [] => None
      | _ :: s' => findPeriod s'
      end
  end.

(** [line.replace(/- Warranty service offered:\s*/i, '')] *)
Fixpoint removeServiceLabel (s : str) : str :=
  match stripPrefixCI (lit "- Warranty service offered:") s with
  | Some r => dropWhile isSpace r
  | None =>
      match s with
      | [] => []
      | c :: s' => c :: removeServiceLabel s'
      end
  end.

(** The inner loop over the lines after a "Repair services available:"
    label; [ls] is already cut to the nine lines it may look at. *)
Fixpoint collectServices (ls : list str) : list str :=
  match ls with
  | [] => []
  | raw :: ls' =>
      let nextLine := trim raw in
      if startsWith nextLine (lit "- ") then
        removeFirst (lit "- ") nextLine :: collectServices ls'
      else if (match nextLine with c :: _ => isUpperAZ c | [] => false end)
              || negb (truthy nextLine)
      then []
      else collectServices ls'
  end.

Record ProductScan := mkScan {
  inProductSection : bool;
  productSection : str;
  warrantyPeriod : option str;
  warrantyService : option str;
  repairServices : list str
}.

Definition scan0 : ProductScan := mkScan false [] None None [].

(** What one iteration does with a line inside the product's section;
    [following] are the lines after it. *)
Definition extractLine (st : ProductScan) (line : str) (following : list str)
  : ProductScan :=
  let wp :=
    if includesCI line (lit "- Warranty period:") then
      match findPeriod line with
      | Some ds => Some (ds ++ lit " Months")
      | None => warrantyPeriod st
      end
    else warrantyPeriod st in
  let ws :=
    if includesCI line (lit "- Warranty service offered:")
    then Some (trim (removeServiceLabel line))
    else warrantyService st in
  let rs :=
    if includesCI line (lit "- Repair services available:")
    then collectServices (firstn 9 following)
    else repairServices st in
  mkScan (inProductSection st) (productSection st) wp ws rs.

(** The loop over the lines, with its [continue] and its two [break]s. *)
Fixpoint productLoop (matchedProduct : str) (st : ProductScan)
  (ls : list str) : ProductScan :=
  match ls with
  | [] => st
  | raw :: rest =>
      let line := trim raw in
      let isHdr := isHeader line && negb (includes line (lit "===")) in
      if isHdr &&
         headerMatches matchedProduct (toLowerCase (removeFirst (lit ":") line))
      then
        productLoop matchedProduct
          (mkScan true line (warrantyPeriod st) (warrantyService st)
             (repairServices st)) rest
      else if isHdr && inProductSection st && isHeader line then st
      else if inProductSection st then
        let st' := extractLine st line rest in
        if startsWith line (lit "===") ||
           (isHeader line && negb (includes line (productSection st)))
        then st'
        else productLoop matchedProduct st' rest
      else productLoop matchedProduct st rest
  end.

(** The reply built from what the scan found, when it found a period. *)
Definition composeReply (st : ProductScan) : option str :=
  match warrantyPeriod st with
  | None => None
  | Some wp =>
      let response := lit "Warranty period: " ++ wp in
      let response :=
        match warrantyService st with
        | Some (c :: ws) => response ++ lit ". " ++ (c :: ws)
        | _ => response
        end in
      let response :=
        match repairServices st with
        | [] => response
        | rs => response ++ lit ". Repair services available: "
                  ++ join (lit ", ") rs ++ lit "."
        end in
      Some response
  end.

Definition productStage (message : str) (lines : list str) : option str :=
  match findProduct productKeywords message with
  | None => None
  | Some matchedProduct => composeReply (productLoop matchedProduct scan0 lines)
  end.

(** *** Stage 2: question and answer pairs *)

Record QA := mkQA { question : str; answer : str }.

Record QAParse := mkParse {
  inQA : bool;
  currentQ : str;
  currentA : str;
  qaPairs : list QA
}.

Definition parse0 : QAParse := mkParse false [] [] [].

Definition pushPair (st : QAParse) : list QA :=
  if truthy (currentQ st) && truthy (currentA st)
  then qaPairs st ++ [mkQA (currentQ st) (currentA st)]
  else qaPairs st.

Definition parseLine (st : QAParse) (raw : str) : QAParse :=
  let line := trim raw in
  if startsWith line (lit "Q:") || startsWith line (lit "QUESTIONS ABOUT") then
    mkParse true (toLowerCase (stripLabel (lit "Q:") line)) [] (pushPair st)
  else if inQA st && startsWith line (lit "A:") then
    mkParse (inQA st) (currentQ st) (stripLabel (lit "A:") line) (qaPairs st)
  else if inQA st && truthy (currentA st) && (0 <? length line) then
    mkParse (inQA st) (currentQ st) (currentA st ++ lit " " ++ line) (qaPairs st)
  else if inQA st && (length line =? 0) && truthy (currentA st) then
    mkParse false (currentQ st) (currentA st) (qaPairs st)
  else st.

Definition parseQA (lines : list str) : list QA :=
  pushPair (fold_left parseLine lines parse0).

Definition stopWords : list str :=
  [lit "how"; lit "what"; lit "when"; lit "where"; lit "why"; lit "can";
   lit "do"; lit "i"; lit "my"; lit "the"; lit "a"; lit "an"].

Definition longerThan (n : nat) (w : str) : bool := n <? length w.

Definition wordsOver2 (s : str) : list str := filter (longerThan 2) (splitWs s).

Definition importantWords (qLower : str) : list str :=
  filter (fun w => longerThan 3 w && negb (existsb (strEq w) stopWords))
         (wordsOver2 qLower).

Definition wordMatches (messageWords : list str) (qWord : str) : bool :=
  existsb (fun mWord =>
             strEq mWord qWord ||
             (longerThan 4 qWord && (includes mWord qWord || includes qWord mWord)))
          messageWords.

(** The keywords that earn a bonus when both sides contain them. *)
Definition bonuses : list (str * Q) :=
  [ (lit "track", 20%Q); (lit "cancel", 20%Q); (lit "latest", 20%Q);
    (lit "order id", 30%Q); (lit "all order", 30%Q); (lit "reorder", 20%Q);
    (lit "change", 20%Q); (lit "wrong item", 30%Q) ].

Definition phraseHit (message qLower : str) : bool :=
  let qPhrase := trim (stripLabel (lit "q:") qLower) in
  includes message qPhrase || includes qPhrase message.

(** [score += 100] for the phrase. *)
Definition addPhrase (message qLower : str) (score : Q) : Q :=
  if phraseHit message qLower then Float64.add score 100 else score.

(** [(matchingWords / importantWords.length) * 50] *)
Definition wordShare (message qLower : str) : Q :=
  let important := importantWords qLower in
  let messageWords := map toLowerCase (wordsOver2 message) in
  let matching := length (filter (wordMatches messageWords) important) in
  Float64.mul
    (Float64.div (Float64.ofNat matching) (Float64.ofNat (length important)))
    50.

Definition addWordShare (message qLower : str) (score : Q) : Q :=
  if 0 <? length (importantWords qLower)
  then Float64.add score (wordShare message qLower)
  else score.

Definition addBonus (message qLower : str) (score : Q) (b : str * Q) : Q :=
  if includes message (fst b) && includes qLower (fst b)
  then Float64.add score (snd b)
  else score.

Definition addBonuses (message qLower : str) (score : Q) : Q :=
  fold_left (addBonus message qLower) bonuses score.

(** [score -= 10] for a question on tracking asked about something else. *)
Definition subPenalty (message qLower : str) (score : Q) : Q :=
  if includes qLower (lit "track") && negb (includes message (lit "track"))
     && negb (includes message (lit "order"))
  then Float64.sub score 10
  else score.

(** The score of one pair: it starts at 0 and is updated in the order of
    the code, each update rounded. *)
Definition score (message : str) (qa : QA) : Q :=
  let qLower := toLowerCase (question qa) in
  subPenalty message qLower
    (addBonuses message qLower
       (addWordShare message qLower
          (addPhrase message qLower 0%Q))).

(** [a > b] *)
Definition Qgtb (a b : Q) : bool := negb (Qle_bool a b).

(** The loop that keeps the first pair with the highest score above 0. *)
Definition pickStep (message : str) (best : option QA * Q) (qa : QA)
  : option QA * Q :=
  if Qgtb (score message qa) (snd best) then (Some qa, score message qa)
  else best.

Definition pickBest (message : str) (pairs : list QA) : option QA * Q :=
  fold_left (pickStep message) pairs (None, 0%Q).

Definition qaStage (message : str) (lines : list str) : option str :=
  match pickBest message (parseQA lines) with
  | (Some bestMatch, bestScore) =>
      if Qgtb bestScore 15%Q then Some (answer bestMatch) else None
  | (None, _) => None
  end.

(** *** Stage 3: section fallback *)

Record SectionScan := mkSections {
  bestSection : str;
  bestMatchCount : nat;
  currentSection : str
}.

Definition sections0 : SectionScan := mkSections [] 0 [].

Definition isSectionStart (line : str) : bool :=
  isHeader line || startsWith line (lit "===").

Definition countIn (words : list str) (text : str) : nat :=
  length (filter (fun word => includes (toLowerCase text) word) words).

Definition sectionLine (words : list str) (st : SectionScan) (line : str)
  : SectionScan :=
  if isSectionStart line then
    let st1 :=
      if truthy (currentSection st) && (bestMatchCount st <? 3) then
        let matchCount := countIn words (currentSection st) in
        if bestMatchCount st <? matchCount
        then mkSections (currentSection st) matchCount (currentSection st)
        else st
      else st in
    mkSections (bestSection st1) (bestMatchCount st1) (line ++ [nl])
  else if 0 <? length (trim line) then
    mkSections (bestSection st) (bestMatchCount st)
               (currentSection st ++ line ++ [nl])
  else st.

Definition sectionScan (words : list str) (lines : list str) (st : SectionScan)
  : SectionScan :=
  fold_left (sectionLine words) lines st.

Definition firstSentences (minLen count : nat) (text : str) : str :=
  let sentences :=
    filter (fun s => minLen <? length (trim s)) (splitSentences text) in
  trim (join (lit ". ") (firstn count sentences)) ++ lit ".".

Definition wordsOver3 (message : str) : list str :=
  filter (longerThan 3) (splitWs message).

Definition sectionStage (message : str) (lines : list str) : option str :=
  let st := sectionScan (wordsOver3 message) lines sections0 in
  if truthy (bestSection st) && (0 <? bestMatchCount st)
  then Some (firstSentences 20 3 (bestSection st))
  else None.

(** *** Stage 4: paragraph fallback *)

Definition paraStep (words : list str) (best : str * nat) (para : str)
  : str * nat :=
  let paraLower := toLowerCase para in
  let matchCount :=
    length (filter (fun word => longerThan 3 word && includes paraLower word)
                   words) in
  if snd best <? matchCount then (para, matchCount) else best.

Definition paragraphStage (message : str) (dataContent : str) : option str :=
  let paragraphs :=
    filter (fun p => 50 <? length (trim p)) (splitParas false dataContent) in
  let best := fold_left (paraStep (wordsOver3 message)) paragraphs ([], 0) in
  if truthy (fst best) && (0 <? snd best)
  then Some (firstSentences 15 2 (fst best))
  else None.

(** *** Stage 5: the order history *)

(** [[\s\S]*?(?=\n[A-Z]|$)]: the shortest text up to a line feed followed by
    a capital, or up to the end. *)
Fixpoint lazyBody (s : str) : str :=
  match s with
  | [] => []
  | c :: s' =>
      if chEq c nl && (match s' with d :: _ => isUpperAZ d | [] => false end)
      then []
      else c :: lazyBody s'
  end.

(** The leftmost match of [/ORDER HISTORY:[\s\S]*?(?=\n[A-Z]|$)/]. *)
Fixpoint historyMatch (s : str) : option str :=
  match stripPrefix (lit "ORDER HISTORY:") s with
  | Some r => Some (lit "ORDER HISTORY:" ++ lazyBody r)
  | None =>
      match s with
      | [] => None
      | _ :: s' => historyMatch s'
      end
  end.

Definition historyStage (dataContent : str) : option str :=
  if includes dataContent (lit "ORDER HISTORY") then
    match historyMatch dataContent with
    | Some m =>
        Some (trim (join (lit " ")
                (firstn 3 (splitChar nl
                   (trim (removeFirst (lit "ORDER HISTORY:") m))))))
    | None => None
    end
  else None.

(** *** The chain *)

Definition orElse {A} (x : option A) (y : option A) : option A :=
  match x with Some _ => x | None => y end.

Definition getAnswerFromData (userMessage dataContent : str) : option str :=
  if negb (truthy dataContent) then None
  else
    let message := toLowerCase userMessage in
    let lines := splitChar nl dataContent in
    orElse (productStage message lines)
      (orElse (qaStage message lines)
         (orElse (sectionStage message lines)
            (orElse (paragraphStage message dataContent)
               (historyStage dataContent)))).

End Extract.

Import Extract.

(* ================================================================== *)
(** ** server.js: getDataFromFile, getImprovedMockResponse *)
(* ================================================================== *)

Module Composer.

(** The patterns of the composer are alternatives of literals and of
    [a.*b]: [a], then anything but a line terminator, then [b]. *)
Inductive pat :=
| Lit (s : string)
| Gap (a b : string).

Fixpoint gapMatch (a b s : str) : bool :=
  match stripPrefix a s with
  | Some r => includes (takeWhile (fun c => negb (isLineTerminator c)) r) b
  | None => false
  end ||
  match s with
  | [] => false
  | _ :: s' => gapMatch a b s'
  end.

Definition matchPat (s : str) (p : pat) : bool :=
  match p with
  | Lit l => includes s (lit l)
  | Gap a b => gapMatch (lit a) (lit b) s
  end.

(** [s.match(/(p1|p2|...)/)] as a test. *)
Definition matches (s : str) (ps : list pat) : bool := existsb (matchPat s) ps.

(** The state of one knowledge file on disk. *)
Inductive File :=
| Missing
| Unreadable
| Content (text : str).

Definition Disk := str -> File.

Definition fileNameFor (topic : str) : option str :=
  let same := strEq topic in
  if same (lit "returns") || same (lit "return") || same (lit "refund")
  then Some (lit "returns.txt")
  else if same (lit "shipping") || same (lit "ship") || same (lit "delivery")
  then Some (lit "shipping.txt")
  else if same (lit "payment") || same (lit "pay") || same (lit "billing")
  then Some (lit "payments.txt")
  else if same (lit "order") || same (lit "orders") || same (lit "tracking")
  then Some (lit "orders.txt")
  else if same (lit "warranty") || same (lit "warranties")
  then Some (lit "warranty.txt")
  else None.

(** The result of [getDataFromFile] and the files it touched. *)
Definition getDataFromFile (disk : Disk) (topic : str)
  : option str * list str :=
  match fileNameFor topic with
  | None => (None, [])
  | Some fileName =>
      match disk fileName with
      | Content text => (Some text, [fileName])
      | Missing | Unreadable => (None, [fileName])
      end
  end.

Definition greetingReply : str :=
  lit "Hello! I'm here to help you with returns, shipping, payments, and orders. How can I assist you today?".
Definition howAreYouReply : str :=
  lit "I'm doing great, thank you for asking! I'm here and ready to help you with any questions about returns, shipping, payments, or orders. What can I do for you today?".
Definition returnsReply : str :=
  lit "I can help you with returns and refunds. Items can be returned within 30 days of purchase in original condition. Would you like more details about our return policy?".
Definition shippingReply : str :=
  lit "Standard shipping takes 5-7 business days. Express is 2-3 days, and overnight is next business day. Free shipping available on orders over $75. Would you like more shipping information?".
Definition paymentsReply : str :=
  lit "We accept all major credit cards, debit cards, PayPal, Apple Pay, and Google Pay. All payments are processed securely. Would you like more payment information?".
Definition orderIdReply : str :=
  lit "You can view all your order IDs by logging into your account at www.oursite.com/my-orders. Your order history page shows all past orders with their order numbers. You can also find order IDs in your order confirmation emails.".
Definition latestOrderReply : str :=
  lit "To view your latest order, log into your account at www.oursite.com/my-orders. You can see all your past orders there, with the most recent orders at the top. You can also check your email for order confirmation messages.".
Definition trackingReply : str :=
  lit "You can track your order using your order number and email at www.oursite.com/my-orders. You'll also receive email updates at each stage of your order. Login to see real-time tracking information.".
Definition cancelReply : str :=
  lit "You can cancel your order within 1 hour of placing it. After that, contact us immediately and we'll try to help if the order hasn't shipped yet.".
Definition ordersReply : str :=
  lit "I can help you with your orders. You can view your order history, track orders, and manage your account at www.oursite.com/my-orders. What specific information do you need about your order?".
Definition helpReply : str :=
  lit "I'd be happy to help! I can assist you with returns, shipping, payments, and orders. What would you like to know about?".
Definition thanksReply : str :=
  lit "You're very welcome! Is there anything else I can help you with today?".
Definition goodbyeReply : str :=
  lit "Thank you for contacting us! Have a wonderful day! If you need anything else, feel free to reach out anytime.".
Definition warrantyReply : str :=
  lit "I can help you with Samsung warranty information. All Samsung products come with a standard manufacturer's warranty. You can register your product online through My Page for faster support. Would you like to know more about warranty periods for specific products or how to book a repair?".
Definition defaultReply : str :=
  lit "I'm a Samsung warranty specialist. I can help you with information about Samsung product warranties, repairs, product registration, and support services. What would you like to know?".

Definition greetingWords : list str :=
  [lit "hi"; lit "hello"; lit "hey"; lit "greetings"; lit "good morning";
   lit "good afternoon"; lit "good evening"].

(** [/^(hi|hello|...)/] *)
Definition isGreeting (message : str) : bool :=
  existsb (startsWith message) greetingWords.

Definition howAreYouPats : list pat :=
  [Lit "how are you"; Lit "how r u"; Lit "how's it going"; Lit "how do you do"].
Definition returnsPats : list pat :=
  [Lit "return"; Lit "refund"; Lit "exchange"; Gap "cancel" "order"].
Definition shippingPats : list pat :=
  [Lit "ship"; Lit "shipping"; Lit "delivery"; Lit "deliver"; Lit "track";
   Lit "tracking"; Gap "when" "arrive"; Gap "how long" "ship"].
Definition paymentsPats : list pat :=
  [Lit "pay"; Lit "payment"; Lit "billing"; Lit "card"; Lit "credit";
   Lit "debit"; Lit "paypal"; Gap "how" "pay"; Lit "payment method"].
Definition ordersPats : list pat :=
  [Lit "order"; Lit "orders"; Gap "latest" "order"; Gap "recent" "order";
   Lit "my order"; Lit "order history"; Lit "order status";
   Gap "track" "order"; Gap "place" "order"; Gap "view" "order";
   Lit "order id"; Lit "order ids"; Lit "all order"].
Definition orderIdPats : list pat :=
  [Lit "order id"; Lit "order ids"; Lit "all order"; Gap "get" "order id"].
Definition latestOrderPats : list pat :=
  [Gap "latest" "order"; Gap "recent" "order"; Gap "last" "order";
   Gap "newest" "order"].
Definition trackingPats : list pat :=
  [Lit "track"; Lit "tracking"; Gap "where" "order"; Lit "order status"].
Definition cancelPats : list pat := [Lit "cancel"; Lit "cancellation"].
Definition thanksPats : list pat :=
  [Lit "thank"; Lit "thanks"; Lit "appreciate"].
Definition goodbyePats : list pat :=
  [Lit "bye"; Lit "goodbye"; Lit "see you"; Lit "farewell"; Lit "exit";
   Lit "quit"].
Definition warrantyPats : list pat :=
  [Lit "warranty"; Lit "warranties"; Lit "repair"; Lit "service";
   Lit "guarantee"; Lit "coverage"; Gap "register" "product";
   Gap "extended" "warranty"; Gap "international" "warranty";
   Gap "samsung" "warranty"; Lit "tablet"; Lit "smartphone"; Lit "phone";
   Lit "watch"; Lit "buds"; Lit "headphone"; Lit "charger"; Lit "battery"].

(** The canned replies tried when the orders extraction is not used. *)
Definition ordersCanned (message : str) : str :=
  if matches message orderIdPats then orderIdReply
  else if matches message latestOrderPats then latestOrderReply
  else if matches message trackingPats then trackingReply
  else if matches message cancelPats then cancelReply
  else ordersReply.

(** One topic block: the test of the message, the file, the extraction and
    the test on its result.  [None] is the fall through to what follows;
    the second component lists the files touched. *)
Definition topicBlock (disk : Disk) (userMessage message : str)
  (ps : list pat) (topic : str) (accept : str -> bool) (canned : str)
  : option str * list str :=
  if matches message ps then
    match getDataFromFile disk topic with
    | (Some data, touched) =>
        if truthy data then
          match getAnswerFromData userMessage data with
          | Some answer =>
              if truthy answer && accept answer then (Some answer, touched)
              else (Some canned, touched)
          | None => (Some canned, touched)
          end
        else (None, touched)
    | (None, touched) => (None, touched)
    end
  else (None, []).

(** Sequencing of two steps of the cascade, files accumulated. *)
Definition andThen (first : option str * list str)
  (rest : option str * list str) : option str * list str :=
  match first with
  | (Some r, touched) => (Some r, touched)
  | (None, touched) => (fst rest, touched ++ snd rest)
  end.

Definition canned (test : bool) (reply : str) : option str * list str :=
  if test then (Some reply, []) else (None, []).

Definition getImprovedMockResponse (disk : Disk) (userMessage : str)
  : str * list str :=
  let message := trim (toLowerCase userMessage) in
  let block := topicBlock disk userMessage message in
  let out :=
    andThen (canned (isGreeting message) greetingReply)
   (andThen (canned (matches message howAreYouPats) howAreYouReply)
   (andThen (block returnsPats (lit "returns") (fun _ => true) returnsReply)
   (andThen (block shippingPats (lit "shipping") (fun _ => true) shippingReply)
   (andThen (block paymentsPats (lit "payments") (fun _ => true) paymentsReply)
   (andThen (block ordersPats (lit "orders") (fun a => 30 <? length a)
               (ordersCanned message))
   (andThen (canned (includes message (lit "help")) helpReply)
   (andThen (canned (matches message thanksPats) thanksReply)
   (andThen (canned (matches message goodbyePats) goodbyeReply)
   (andThen (block warrantyPats (lit "warranty") (fun a => 10 <? length a)
               warrantyReply)
            (Some defaultReply, [])))))))))) in
  (match fst out with Some r => r | None => defaultReply end, snd out).

End Composer.

Import Composer.

(* ================================================================== *)
(** ** server.js: getHuggingFaceResponse *)
(* ================================================================== *)

Module Responder.

(** What one request to the text generation service comes back with.
    [estimated_time] is the field of the JSON body of a refusal, [None]
    when the body has none; a body that is not JSON is [BadBody]. *)
Inductive Answer :=
| NetworkError
| BadBody (status : Z)
| Refused (status : Z) (estimated_time : option Q)
| Generated (generated_text : option str).

(** The service as the function answering the n-th request. *)
Definition Service := nat -> Answer.

Definition prompt (userMessage : str) : str :=
  lit "You are a helpful customer service assistant. User: " ++ userMessage
  ++ [nl] ++ lit "Assistant:".

(** Truthiness of a number. *)
Definition nonZero (q : Q) : bool := negb (Qeq_bool q 0%Q).

(** The number a field of the body is read as. *)
Definition parsed (t : Q) : Q := Float64.round t.

(** [data.estimated_time * 1000 + 2000], the wait in milliseconds. *)
Definition waitFor (t : Q) : Q :=
  Float64.add (Float64.mul (parsed t) 1000) 2000.

Record Run := mkRun {
  reply : str;
  requests : nat;
  waits : list Q
}.

(** [getHuggingFaceResponse]: [n] requests were made before this call and
    [ws] are the waits so far, in milliseconds.  The function calls itself
    after a wait; [fuel] bounds the calls, [None] is fuel used up. *)
Fixpoint getHuggingFaceResponse (fuel : nat) (service : Service)
  (disk : Disk) (userMessage : str) (n : nat) (ws : list Q) : option Run :=
  match fuel with
  | O => None
  | S fuel' =>
      let mock := fst (getImprovedMockResponse disk userMessage) in
      match service n with
      | NetworkError => Some (mkRun mock (S n) ws)
      | BadBody _ => Some (mkRun mock (S n) ws)
      | Refused status estimated_time =>
          match estimated_time with
          | Some t =>
              if (status =? 503)%Z && nonZero (parsed t) then
                getHuggingFaceResponse fuel' service disk userMessage (S n)
                  (ws ++ [waitFor t])
              else Some (mkRun mock (S n) ws)
          | None => Some (mkRun mock (S n) ws)
          end
      | Generated generated_text =>
          let generatedText :=
            match generated_text with
            | Some g => trim g
            | None => []
            end in
          let cleaned := trim (removeFirst (prompt userMessage) generatedText) in
          if truthy generatedText && (5 <? length cleaned)
          then Some (mkRun cleaned (S n) ws)
          else Some (mkRun mock (S n) ws)
      end
  end.

(** The service that is still loading its model at every request. *)
Definition alwaysLoading : Service := fun _ => Refused 503 (Some 20%Q).

(** The first [k] requests find the model loading, the next one is served. *)
Definition loadingFor (k : nat) (text : str) : Service :=
  fun n => if n <? k then Refused 503 (Some 20%Q) else Generated (Some text).

End Responder.

(* ================================================================== *)
(** ** scraper.js: fetchWarrantyFromWebsite, getWarrantyWithCache *)
(* ================================================================== *)

Module Scraper.

Definition CACHE_DURATION : Z := 60 * 60 * 1000.

(** *** The page and what is read off it *)

(** An element selected by ['strong, h3, h4, li, p'], with the text of its
    parent and of its next sibling (empty when there is none). *)
Record Node := mkNode {
  nodeText : str;
  parentText : str;
  nextText : str
}.

(** An element selected by ['button, [role="button"], h2, h3'], with the
    text of its next sibling and of its parent's next sibling when they
    exist. *)
Record FaqNode := mkFaq {
  faqText : str;
  faqNext : option str;
  faqParentNext : option str
}.

Record Page := mkPage {
  nodes : list Node;
  faqNodes : list FaqNode
}.

Definition threeServices : list str :=
  [lit "In-store repair"; lit "Pick up repair"; lit "Doorstep repair"].
Definition twoServices : list str :=
  [lit "In-store repair"; lit "Pick up repair"].

(** [productWarrantyMap]: key, period, services, in the order of the
    entries. *)
Definition productWarrantyMap : list (str * (str * list str)) :=
  [ (lit "smartphone", (lit "24 Months", threeServices));
    (lit "tablet", (lit "24 Months", threeServices));
    (lit "galaxy buds", (lit "12 Months", twoServices));
    (lit "wireless headphones", (lit "12 Months", twoServices));
    (lit "galaxy watch", (lit "24 Months", threeServices));
    (lit "gear smart watch", (lit "24 Months", threeServices));
    (lit "galaxy ring", (lit "12 Months", [lit "Pick up repair"]));
    (lit "charger", (lit "12 Months", twoServices));
    (lit "battery", (lit "12 Months", twoServices));
    (lit "wired headphones", (lit "12 Months", twoServices));
    (lit "watch strap", (lit "6 Months", twoServices));
    (lit "s pen", (lit "12 Months", twoServices));
    (lit "cooker hood", (lit "24 Months", threeServices));
    (lit "hood", (lit "24 Months", threeServices));
    (lit "robotic vacuum cleaners", (lit "24 Months", threeServices));
    (lit "robotic vacuum", (lit "24 Months", threeServices));
    (lit "vacuum cleaners", (lit "24 Months", threeServices));
    (lit "vacuum cleaner", (lit "24 Months", threeServices));
    (lit "large format display", (lit "36 Months", threeServices));
    (lit "set back box", (lit "36 Months", threeServices));
    (lit "sbb", (lit "36 Months", threeServices));
    (lit "monitor", (lit "24 Months", threeServices));
    (lit "monitor for consumers", (lit "24 Months", threeServices));
    (lit "oled monitor", (lit "24 Months", threeServices));
    (lit "oled monitor for consumers", (lit "24 Months", threeServices)) ].

Definition serviceSentence : str :=
  lit "- Warranty service offered: Our Samsung Authorised Service Partners offer both In and Out of warranty repairs.".

(** String.prototype.toUpperCase on the keys of the table, which are
    lower-case ASCII letters and blanks. *)
Definition upperChar (c : ascii) : ascii :=
  if (97 <=? code c)%N && (code c <=? 122)%N
  then ascii_of_N (code c - 32) else c.

(** The four lines written for one recognized product. *)
Definition recordText (productKey period : str) (services : list str) : str :=
  map upperChar productKey ++ lit ":" ++ [nl]
  ++ lit "- Warranty period: " ++ period ++ [nl]
  ++ serviceSentence ++ [nl]
  ++ lit "- Repair services available: " ++ join (lit ", ") services
  ++ [nl; nl].

(** The loop over the table for one element, with its [break]: the record
    of the first key the element mentions, when a period is mentioned
    nearby. *)
Fixpoint recognize (table : list (str * (str * list str))) (n : Node)
  : option str :=
  match table with
  | [] => None
  | (productKey, (period, services)) :: table' =>
      let textLower := toLowerCase (trim (nodeText n)) in
      let combinedText :=
        toLowerCase (toLowerCase (parentText n) ++ lit " "
                     ++ toLowerCase (nextText n)) in
      if includes textLower productKey &&
         (includes combinedText (lit "warranty period")
          || includes combinedText (lit "months"))
      then Some (recordText productKey period services)
      else recognize table' n
  end.

(** The records recognized on the page, in document order. *)
Definition recognized (p : Page) : list str :=
  flat_map (fun n => match recognize productWarrantyMap n with
                     | Some r => [r]
                     | None => []
                     end) (nodes p).

Definition header : str :=
  lit "SAMSUNG WARRANTY INFORMATION - COMPREHENSIVE GUIDE" ++ [nl; nl]
  ++ lit "=== STANDARD WARRANTY ===" ++ [nl]
  ++ lit "All Samsung products come with a standard manufacturer's warranty."
  ++ [nl; nl]
  ++ lit "=== MOBILE DEVICES WARRANTY ===" ++ [nl; nl].

Definition catalogEntry (name period : string) (services : list str) : str :=
  lit name ++ lit ":" ++ [nl]
  ++ lit "- Warranty period: " ++ lit period ++ [nl]
  ++ serviceSentence ++ [nl]
  ++ lit "- Repair services available: " ++ join (lit ", ") services
  ++ [nl; nl].

(** The known warranty periods written when the page gave none. *)
Definition catalog : str :=
  lit "=== HOME APPLIANCES WARRANTY ===" ++ [nl; nl]
  ++ catalogEntry "COOKER HOOD" "24 Months" threeServices
  ++ catalogEntry "ROBOTIC VACUUM CLEANERS" "24 Months" threeServices
  ++ catalogEntry "VACUUM CLEANERS" "24 Months" threeServices
  ++ lit "=== MOBILE DEVICES WARRANTY ===" ++ [nl; nl]
  ++ catalogEntry "SMARTPHONE (including Certified Re-Newed model)"
       "24 Months" threeServices
  ++ catalogEntry "TABLET" "24 Months" threeServices
  ++ catalogEntry "GALAXY BUDS AND WIRELESS HEADPHONES" "12 Months" twoServices
  ++ catalogEntry "GALAXY AND GEAR SMART WATCH" "24 Months" threeServices
  ++ catalogEntry "GALAXY RING" "12 Months" [lit "Pick up repair"]
  ++ lit "=== DISPLAY PRODUCTS WARRANTY ===" ++ [nl; nl]
  ++ catalogEntry "LARGE FORMAT DISPLAY" "36 Months" threeServices
  ++ catalogEntry "SET BACK BOX - SBB" "36 Months" threeServices
  ++ catalogEntry "MONITOR (FOR CONSUMERS)" "24 Months" threeServices
  ++ catalogEntry "OLED MONITOR (FOR CONSUMERS)" "24 Months" threeServices.

(** The test that decides whether the known periods are written. *)
Definition needsCatalog (warrantyInfo : str) : bool :=
  negb (includes warrantyInfo (lit "SMARTPHONE:"))
  && negb (includes warrantyInfo (lit "COOKER HOOD:")).

Definition looksLikeQuestion (text : str) : bool :=
  let textLower := toLowerCase text in
  (10 <? length text) && (length text <? 200) &&
  (includes textLower (lit "?") || includes textLower (lit "can i")
   || includes textLower (lit "what") || includes textLower (lit "how")
   || includes textLower (lit "which") || includes textLower (lit "does")
   || includes textLower (lit "will")).

Definition answerSized (o : option str) : str :=
  match o with
  | Some t =>
      let t' := trim t in
      if (20 <? length t') && (length t' <? 1000) then t' else []
  | None => []
  end.

Definition faqOf (f : FaqNode) : list (str * str) :=
  let text := trim (faqText f) in
  if looksLikeQuestion text then
    let answer := answerSized (faqNext f) in
    let answer :=
      if negb (truthy answer) then answerSized (faqParentNext f) else answer in
    if truthy answer then [(text, answer)] else []
  else [].

Definition faqText20 (p : Page) : str :=
  List.concat (map (fun qa => lit "Q: " ++ fst qa ++ [nl]
                         ++ lit "A: " ++ snd qa ++ [nl; nl])
              (firstn 20 (flat_map faqOf (faqNodes p)))).

Definition footer : str :=
  lit "=== GENERAL WARRANTY INFORMATION ===" ++ [nl]
  ++ lit "To obtain warranty service, the original proof of purchase will be required and the serial number affixed to the product must be complete and undamaged." ++ [nl]
  ++ lit "The warranty covers defects in materials and workmanship." ++ [nl]
  ++ lit "You can register your Samsung product online through My Page to receive faster support." ++ [nl; nl]
  ++ lit "=== TROUBLESHOOTING AND REPAIRS ===" ++ [nl]
  ++ lit "Need help with your product? Try our online troubleshooter to resolve the problem. If it hasn't solved the issue you're experiencing, you can book a repair online too." ++ [nl; nl]
  ++ lit "=== CONTACT INFORMATION ===" ++ [nl]
  ++ lit "For support buying a product, help with an order or technical product support, please contact Samsung using the details in the Contact Us section." ++ [nl]
  ++ lit "Troubleshoot and book a repair: https://www.samsung.com/uk/support/repair/" ++ [nl]
  ++ lit "Contact us: https://www.samsung.com/uk/support/contact/" ++ [nl].

(** The text after the scan of the page, before the test. *)
Definition scanned (p : Page) : str := header ++ List.concat (recognized p).

(** The text [fetchWarrantyFromWebsite] returns for a page it could load. *)
Definition warrantyText (p : Page) : str :=
  let warrantyInfo := scanned p in
  let warrantyInfo :=
    if needsCatalog warrantyInfo then warrantyInfo ++ catalog
    else warrantyInfo in
  warrantyInfo ++ lit "=== WARRANTY FAQs ===" ++ [nl; nl]
  ++ faqText20 p ++ footer.

(** [None] is the request that failed: the function throws. *)
Definition fetchWarrantyFromWebsite (site : option Page) : option str :=
  option_map warrantyText site.

(** *** The cache *)

Record Cache := mkCache {
  data : option str;
  timestamp : option Z
}.

Definition emptyCache : Cache := mkCache None None.

(** The test at the head of [getWarrantyWithCache]. *)
Definition fresh (c : Cache) (now : Z) : bool :=
  match data c, timestamp c with
  | Some d, Some t =>
      truthy d && negb (t =? 0)%Z && (now - t <? CACHE_DURATION)%Z
  | _, _ => false
  end.

(** What a call of [getWarrantyWithCache] leaves behind: the text or the
    error, the cache, and whether it called [fetchWarrantyFromWebsite]. *)
Record Got := mkGot {
  result : option str;
  cacheAfter : Cache;
  fetched : bool
}.

Definition getWarrantyWithCache (now : Z) (live : option str) (file : File)
  (c : Cache) : Got :=
  if fresh c now then mkGot (data c) c false
  else
    match live with
    | Some warrantyData =>
        mkGot (Some warrantyData) (mkCache (Some warrantyData) (Some now)) true
    | None =>
        match file with
        | Content fileData =>
            mkGot (Some fileData) (mkCache (Some fileData) (Some now)) true
        | Missing | Unreadable => mkGot None c true
        end
    end.

Definition clearWarrantyCache (c : Cache) : Cache := emptyCache.

End Scraper.

Import Scraper.

(* ================================================================== *)
(** ** server.js: getWarrantyKnowledgeBase, GET /api/warranty-data *)
(* ================================================================== *)

Module Server.

(** [getWarrantyKnowledgeBase]: the text of [getWarrantyWithCache]; when
    that call throws, the fallback file is read once more, [file'] being
    its state at that second read, and [null] is returned when it cannot be
    read.  The cache is the one [getWarrantyWithCache] left. *)
Definition getWarrantyKnowledgeBase (now : Z) (live : option str)
  (file file' : File) (c : Cache) : option str * Cache :=
  let g := getWarrantyWithCache now live file c in
  match result g with
  | Some warrantyData => (Some warrantyData, cacheAfter g)
  | None =>
      match file' with
      | Content text => (Some text, cacheAfter g)
      | Missing | Unreadable => (None, cacheAfter g)
      end
  end.

(** The body of the answer of GET /api/warranty-data. *)
Record WarrantyData := mkWarrantyData {
  source : str;
  preview : str
}.

(** [s.substring(0, n)] *)
Definition substring0 (n : nat) (s : str) : str := firstn n s.

Definition warrantyDataEndpoint (warrantyData : option str) : WarrantyData :=
  match warrantyData with
  | Some (c :: t) =>
      mkWarrantyData (lit "live") (substring0 500 (c :: t) ++ lit "...")
  | _ => mkWarrantyData (lit "file") (lit "No data available")
  end.

(** [getMockResponse] *)
Definition getMockResponse (disk : Disk) (userMessage : str)
  : str * list str :=
  getImprovedMockResponse disk userMessage.

End Server.

(* ================================================================== *)
(** ** The numbers of the score against the machine's binary64 *)
(* ================================================================== *)

Module Float64Facts.
Import PrimFloat.

(** The rational that a binary64 number of the machine denotes. *)
Definition denote (f : float) : option Q :=
  match FloatOps.Prim2SF f with
  | SpecFloat.S754_zero _ => Some 0%Q
  | SpecFloat.S754_finite s m e =>
      Some (Float64.scaled (if s then Zneg m else Zpos m) e)
  | _ => None
  end.

Definition same (f : float) (q : Q) : bool :=
  match denote f with
  | Some x => (Qnum x =? Qnum q)%Z && (Qden x =? Qden q)%positive
  | None => false
  end.

Definition ofNat (n : nat) : float := of_uint63 (Uint63.of_Z (Z.of_nat n)).

(** The statements of the score, l.363-402 of server.js, on the numbers of
    the machine: [hit] is the test of the phrase, [matching] and
    [important] the two counts, [got] the tests of the eight bonuses in
    their order, [penalty] the test of the penalty. *)
Definition machineScore (hit : bool) (matching important : nat)
    (got : list bool) (penalty : bool) : float :=
  let s0 := if hit then (0 + 100)%float else 0%float in
  let s1 := if 0 <? important
            then (s0 + (ofNat matching / ofNat important) * 50)%float
            else s0 in
  let s2 := fold_left (fun s (b : bool * float) =>
                         if fst b then (s + snd b)%float else s)
                      (combine got [20; 20; 20; 30; 30; 20; 20; 30]%float)
                      s1 in
  if penalty then (s2 - 10)%float else s2.

(** The same statements on [Float64]. *)
Definition scoreFrom (hit : bool) (matching important : nat)
    (got : list bool) (penalty : bool) : Q :=
  let s0 := if hit then Float64.add 0 100 else 0%Q in
  let s1 := if 0 <? important
            then Float64.add s0
                   (Float64.mul
                      (Float64.div (Float64.ofNat matching)
                                   (Float64.ofNat important)) 50)
            else s0 in
  let s2 := fold_left (fun s (b : bool * Q) =>
                         if fst b then Float64.add s (snd b) else s)
                      (combine got [20; 20; 20; 30; 30; 20; 20; 30]%Q) s1 in
  if penalty then Float64.sub s2 10 else s2.

Fixpoint boolLists (n : nat) : list (list bool) :=
  match n with
  | O => [[]]
  | S k => flat_map (fun l => [true :: l; false :: l]) (boolLists k)
  end.

(** Every share of up to [N] important words, added to 0 and to 100. *)
Definition sharesAgree (N : nat) : bool :=
  forallb (fun important =>
    forallb (fun matching =>
      forallb (fun hit =>
        same (machineScore hit matching important [] false)
             (scoreFrom hit matching important [] false))
        [true; false])
      (seq 0 (S important)))
    (seq 0 (S N)).

(** Every outcome of the ten tests, for the given counts. *)
Definition scoresAgree (counts : list (nat * nat)) : bool :=
  forallb (fun mn =>
    forallb (fun hit =>
      forallb (fun got =>
        forallb (fun pen =>
          same (machineScore hit (fst mn) (snd mn) got pen)
               (scoreFrom hit (fst mn) (snd mn) got pen))
          [true; false])
        (boolLists 8))
      [true; false])
    counts.

(** [Extract.score] is [scoreFrom] at the tests and counts of the pair. *)
Lemma score_is_scoreFrom message qa :
  let q := toLowerCase (Extract.question qa) in
  Extract.score message qa
  = scoreFrom
      (Extract.phraseHit message q)
      (length (filter (Extract.wordMatches
                         (map toLowerCase (Extract.wordsOver2 message)))
                      (Extract.importantWords q)))
      (length (Extract.importantWords q))
      (map (fun b => includes message (fst b) && includes q (fst b))
           Extract.bonuses)
      (includes q (lit "track") && negb (includes message (lit "track"))
       && negb (includes message (lit "order"))).
Proof.
  intros q. unfold Extract.score. fold q.
  unfold scoreFrom, Extract.subPenalty, Extract.addBonuses,
    Extract.addWordShare, Extract.addPhrase, Extract.wordShare,
    Extract.addBonus, Extract.bonuses.
  cbn [map combine fold_left fst snd]. reflexivity.
Qed.

(** The machine's numbers and [Float64] agree on the share of the matched
    words, for every count of up to 40 important words. *)
Example shares_agree : sharesAgree 40 = true.
Proof. vm_cast_no_check (eq_refl true). Qed.

(** They agree on the whole score, whatever the ten tests give, for counts
    whose quotient is and is not a binary64 number. *)
Example scores_agree :
  scoresAgree [(0, 0); (1, 1); (1, 2); (1, 3); (1, 6); (2, 15)] = true.
Proof. vm_cast_no_check (eq_refl true). Qed.

(** The operations one by one: quotients that are rounded up and down, a
    negative one, a tie, a sum that cancels, the least positive number
    halved. *)
Example operations_agree :
  same (1 / 6)%float (Float64.div 1 6) = true /\
  same (2 / 3)%float (Float64.div 2 3) = true /\
  same (-7 / 3)%float (Float64.div (-7) 3) = true /\
  same (9007199254740992 + 1)%float (Float64.add 9007199254740992 1) = true /\
  same (9007199254740992 + 3)%float (Float64.add 9007199254740992 3) = true /\
  same (1 / 3 - 1 / 3)%float
       (Float64.sub (Float64.div 1 3) (Float64.div 1 3)) = true /\
  same (0x1p-1074 / 2)%float
       (Float64.div (Float64.round (1 # 2 ^ 1074)) 2) = true /\
  same (0x1p-1074 * 0x1.8p0)%float
       (Float64.mul (Float64.round (1 # 2 ^ 1074)) (3 # 2)) = true.
Proof. vm_compute. repeat split. Qed.

(** The wait of the responder: for an estimated time of 128.2 seconds the
    machine's number and [Responder.waitFor] agree, just below 130200. *)
Example wait_agrees :
  same (1282 / 10 * 1000 + 2000)%float (Responder.waitFor (1282 # 10)) = true /\
  (Responder.waitFor (1282 # 10) < 130200)%Q /\
  same (20 * 1000 + 2000)%float (Responder.waitFor 20) = true /\
  Responder.waitFor 20 = 22000%Q.
Proof. vm_compute. repeat split. Qed.

(** Equal as fractions, different as numbers: one match of six with the
    bonus of 30 and the penalty is less than one match of six with a bonus
    of 20, and an exact match with one match of three and the penalty is
    less than an exact match with two matches of fifteen. *)
Example rounded_scores_differ :
  (scoreFrom false 1 6 [false; false; false; false; false; false; false; true]
             true
   < scoreFrom false 1 6 [false; false; true] false)%Q /\
  (scoreFrom true 1 3 [] true < scoreFrom true 2 15 [] false)%Q /\
  (50 / 6 + 30 - 10 == 50 / 6 + 20)%Q /\
  (100 + 50 / 3 - 10 == 100 + 2 * 50 / 15)%Q.
Proof. vm_compute. repeat split. Qed.

End Float64Facts.

(* ================================================================== *)
(** ** Section fallback: what the scan can and cannot select *)
(* ================================================================== *)

Module SectionFacts.

Lemma sectionScan_app words l1 l2 st :
  sectionScan words (l1 ++ l2) st
  = sectionScan words l2 (sectionScan words l1 st).
Proof. unfold sectionScan. apply fold_left_app. Qed.

(** A line that starts no section leaves the best section alone. *)
Lemma sectionLine_body words st line :
  isSectionStart line = false ->
  bestSection (sectionLine words st line) = bestSection st /\
  bestMatchCount (sectionLine words st line) = bestMatchCount st.
Proof.
  intros H. unfold sectionLine. rewrite H.
  destruct (0 <? length (trim line)); simpl; auto.
Qed.

(** Past a count of three no line changes the best section. *)
Lemma sectionLine_frozen words st line :
  3 <= bestMatchCount st ->
  bestSection (sectionLine words st line) = bestSection st /\
  bestMatchCount (sectionLine words st line) = bestMatchCount st.
Proof.
  intros H. unfold sectionLine.
  assert (Hlt : (bestMatchCount st <? 3) = false) by (apply Nat.ltb_ge; lia).
  rewrite Hlt, andb_false_r.
  destruct (isSectionStart line); simpl; auto.
  destruct (0 <? length (trim line)); simpl; auto.
Qed.

Lemma sectionScan_frozen words lines : forall st,
  3 <= bestMatchCount st ->
  bestSection (sectionScan words lines st) = bestSection st /\
  bestMatchCount (sectionScan words lines st) = bestMatchCount st.
Proof.
  induction lines as [|line lines IH]; intros st H; simpl; auto.
  destruct (sectionLine_frozen words st line H) as [Hs Hc].
  destruct (IH (sectionLine words st line)) as [Hs' Hc']; [lia|].
  unfold sectionScan in *. simpl. rewrite Hs', Hc'. auto.
Qed.

Lemma sectionScan_body words tail : forall st,
  Forall (fun l => isSectionStart l = false) tail ->
  bestSection (sectionScan words tail st) = bestSection st /\
  bestMatchCount (sectionScan words tail st) = bestMatchCount st.
Proof.
  induction tail as [|line tail IH]; intros st H; simpl; auto.
  inversion H as [|? ? Hl Ht]; subst.
  destruct (sectionLine_body words st line Hl) as [Hs Hc].
  destruct (IH (sectionLine words st line) Ht) as [Hs' Hc'].
  unfold sectionScan in *. simpl. rewrite Hs', Hc'. auto.
Qed.

(** Closing a section that holds three or more of the words brings the
    best count to three or more. *)
Lemma sectionLine_reaches_three words st hdr :
  isSectionStart hdr = true ->
  truthy (currentSection st) = true ->
  3 <= countIn words (currentSection st) ->
  3 <= bestMatchCount (sectionLine words st hdr).
Proof.
  intros Hh Ht Hc. unfold sectionLine. rewrite Hh, Ht. simpl.
  destruct (bestMatchCount st <? 3) eqn:E3; simpl.
  - destruct (bestMatchCount st <? countIn words (currentSection st)) eqn:E;
      simpl; [lia|].
    apply Nat.ltb_lt in E3. apply Nat.ltb_ge in E. lia.
  - apply Nat.ltb_ge in E3. lia.
Qed.

(** C7. Section fallback, the cutoff at three: when the section closed by
    the header line [hdr] holds three or more of the query words, the best
    count is three or more from then on and is not updated again: whatever
    lines [rest] follow, also sections holding strictly more of the words,
    the best section, the best count and the reply of the stage stay what
    they were after [hdr]. *)
Theorem section_cutoff_at_three message pre hdr rest :
  let words := wordsOver3 message in
  isSectionStart hdr = true ->
  truthy (currentSection (sectionScan words pre sections0)) = true ->
  3 <= countIn words (currentSection (sectionScan words pre sections0)) ->
  let closed := sectionScan words (pre ++ [hdr]) sections0 in
  let final := sectionScan words (pre ++ hdr :: rest) sections0 in
  3 <= bestMatchCount closed /\
  bestSection final = bestSection closed /\
  bestMatchCount final = bestMatchCount closed /\
  sectionStage message (pre ++ hdr :: rest)
    = sectionStage message (pre ++ [hdr]).
Proof.
  intros words Hh Ht Hc closed final.
  assert (H3 : 3 <= bestMatchCount closed).
  { unfold closed. rewrite sectionScan_app. simpl.
    apply sectionLine_reaches_three; assumption. }
  split; [exact H3|].
  assert (E : final = sectionScan words rest closed).
  { unfold final, closed.
    replace (pre ++ hdr :: rest) with ((pre ++ [hdr]) ++ rest)
      by (rewrite <- app_assoc; reflexivity).
    apply sectionScan_app. }
  destruct (sectionScan_frozen words rest closed H3) as [Hs Hn].
  rewrite <- E in Hs, Hn.
  split; [exact Hs|]. split; [exact Hn|].
  unfold sectionStage. fold words. fold final. fold closed.
  rewrite Hs, Hn. reflexivity.
Qed.

(** A document whose second section holds four of the query words and whose
    first section holds three. *)
Definition cutoffQuery : str := lit "alpha beta gamma delta".
Definition cutoffPre : list str := [lit "FIRST:"; lit "alpha beta gamma"].
Definition cutoffRest : list str :=
  [lit "alpha beta gamma delta"; lit "THIRD:"; lit "nothing"].

Lemma section_cutoff_at_three_witness :
  countIn (wordsOver3 cutoffQuery)
    (lit "SECOND:" ++ [nl] ++ lit "alpha beta gamma delta" ++ [nl]) = 4 /\
  bestSection (sectionScan (wordsOver3 cutoffQuery)
                 (cutoffPre ++ lit "SECOND:" :: cutoffRest) sections0)
  = lit "FIRST:" ++ [nl] ++ lit "alpha beta gamma" ++ [nl] /\
  bestMatchCount (sectionScan (wordsOver3 cutoffQuery)
                    (cutoffPre ++ lit "SECOND:" :: cutoffRest) sections0) = 3.
Proof.
  split; [reflexivity|].
  destruct (section_cutoff_at_three cutoffQuery cutoffPre (lit "SECOND:")
              cutoffRest) as [_ [Hs [Hc _]]];
    [ reflexivity | reflexivity | vm_compute; lia | ].
  rewrite Hs, Hc. split; reflexivity.
Defined.

(** C10. Section fallback, the last section: a section is scored only when
    the line that starts the next one is read, so the lines [tail] after the
    last such line (all the lines, when no line starts a section) have no
    part in the outcome: the best section, the best count and the reply of
    the stage are those of the document without [tail], whatever query words
    [tail] holds. *)
Theorem final_section_never_scored message pre tail :
  Forall (fun l => isSectionStart l = false) tail ->
  let words := wordsOver3 message in
  bestSection (sectionScan words (pre ++ tail) sections0)
    = bestSection (sectionScan words pre sections0) /\
  bestMatchCount (sectionScan words (pre ++ tail) sections0)
    = bestMatchCount (sectionScan words pre sections0) /\
  sectionStage message (pre ++ tail) = sectionStage message pre.
Proof.
  intros H words.
  destruct (sectionScan_body words tail (sectionScan words pre sections0) H)
    as [Hs Hc].
  rewrite <- sectionScan_app in Hs, Hc.
  split; [exact Hs|]. split; [exact Hc|].
  unfold sectionStage. fold words. rewrite Hs, Hc. reflexivity.
Qed.

Definition lastPre : list str :=
  [lit "SHIPPING:"; lit "We deliver worldwide."; lit "RETURNS:"].
Definition lastTail : list str :=
  [lit "Refunds for returned items are paid within ten days."; [];
   lit "Returned items must be unused."].

Lemma final_section_never_scored_witness :
  sectionStage (lit "refunds returned items") (lastPre ++ lastTail) = None.
Proof.
  destruct (final_section_never_scored (lit "refunds returned items")
              lastPre lastTail) as [_ [_ H]].
  - repeat constructor.
  - rewrite H. reflexivity.
Defined.

End SectionFacts.

(* ================================================================== *)
(** ** Question and answer scorer *)
(* ================================================================== *)

Module QAFacts.

(** [part t s]: [t] occurs in [s] as a run of consecutive characters. *)
Definition part (t s : str) : Prop := exists a c, s = a ++ t ++ c.

Lemma part_refl s : part s s.
Proof. exists [], []. simpl. now rewrite app_nil_r. Qed.

Lemma part_trans t u s : part t u -> part u s -> part t s.
Proof.
  intros [a [c E1]] [a' [c' E2]]. exists (a' ++ a), (c ++ c').
  rewrite E2, E1. now rewrite !app_assoc.
Qed.

Lemma chEq_refl c : chEq c c = true.
Proof. apply Ascii.eqb_refl. Qed.

Lemma startsWith_app t c : startsWith (t ++ c) t = true.
Proof.
  induction t as [|x t IH]; simpl; [destruct c; reflexivity|].
  now rewrite chEq_refl.
Qed.

Lemma includes_start s t : startsWith s t = true -> includes s t = true.
Proof. intros H. destruct s; simpl in *; rewrite H; reflexivity. Qed.

Lemma includes_app a t c : includes (a ++ t ++ c) t = true.
Proof.
  induction a as [|x a IH]; simpl.
  - apply includes_start, startsWith_app.
  - rewrite IH. apply orb_true_r.
Qed.

Lemma part_includes t s : part t s -> includes s t = true.
Proof. intros [a [c E]]. subst. apply includes_app. Qed.

Lemma take_drop f s : s = takeWhile f s ++ dropWhile f s.
Proof.
  induction s as [|c s IH]; simpl; [reflexivity|].
  destruct (f c); simpl; [now rewrite <- IH | reflexivity].
Qed.

Lemma part_dropWhile f s : part (dropWhile f s) s.
Proof.
  exists (takeWhile f s), []. rewrite app_nil_r. apply take_drop.
Qed.

Lemma part_trimEnd s : part (trimEnd s) s.
Proof.
  unfold trimEnd. exists [], (rev (takeWhile isSpace (rev s))). simpl.
  rewrite <- rev_app_distr, <- take_drop. now rewrite rev_involutive.
Qed.

Lemma part_trim s : part (trim s) s.
Proof.
  unfold trim, trimStart.
  eapply part_trans; [apply part_trimEnd | apply part_dropWhile].
Qed.

Lemma stripPrefix_Some p : forall s r, stripPrefix p s = Some r -> s = p ++ r.
Proof.
  induction p as [|y p IH]; intros s r H; simpl in *.
  - now inversion H.
  - destruct s as [|x s]; [discriminate|].
    destruct (chEq x y) eqn:E; [|discriminate].
    apply Ascii.eqb_eq in E. subst. f_equal. now apply IH.
Qed.

Lemma part_stripLabel p s : part (stripLabel p s) s.
Proof.
  unfold stripLabel. destruct (stripPrefix p s) as [r|] eqn:E.
  - apply stripPrefix_Some in E. subst.
    eapply part_trans; [apply part_dropWhile|].
    exists p, []. now rewrite app_nil_r.
  - apply part_refl.
Qed.

(** A message that is the question itself holds the question's phrase. *)
Lemma phraseHit_self q : phraseHit q q = true.
Proof.
  unfold phraseHit. apply orb_true_iff. left. apply part_includes.
  eapply part_trans; [apply part_trim | apply part_stripLabel].
Qed.

Lemma subPenalty_self q s : subPenalty q q s = s.
Proof.
  unfold subPenalty. destruct (includes q (lit "track")); reflexivity.
Qed.

Lemma strEq_refl s : strEq s s = true.
Proof.
  induction s as [|c s IH]; [reflexivity|]. simpl.
  now rewrite chEq_refl, IH.
Qed.

Lemma lowerChar_fixed c : lowerChar (lowerChar c) = lowerChar c.
Proof. destruct c as [[] [] [] [] [] [] [] []]; reflexivity. Qed.

(** The characters of a piece are characters of the text. *)
Lemma splitRuns_chars sep s : forall inSep piece c,
  In piece (splitRuns sep inSep s) -> In c piece -> In c s.
Proof.
  induction s as [|x s IH]; intros inSep piece c; cbn [splitRuns].
  - intros [<-|[]] [].
  - destruct (sep x).
    + destruct inSep.
      * intros Hp Hc. right. exact (IH _ _ _ Hp Hc).
      * intros [<-|Hp] Hc; [destruct Hc|]. right. exact (IH _ _ _ Hp Hc).
    + destruct (splitRuns sep false s) as [|h t] eqn:E; cbn [consHead].
      * intros [<-|[]] [->|[]]. now left.
      * intros [<-|Hp] Hc.
        -- destruct Hc as [->|Hc]; [now left|]. right.
           apply (IH false h c); [rewrite E; now left | exact Hc].
        -- right. apply (IH false piece c); [rewrite E; now right | exact Hc].
Qed.

(** The words of a text in lower case are in lower case. *)
Lemma words_lower x w :
  In w (wordsOver2 (toLowerCase x)) -> toLowerCase w = w.
Proof.
  intros H. unfold wordsOver2 in H. apply filter_In in H. destruct H as [H _].
  unfold toLowerCase at 1. rewrite <- (map_id w) at 2.
  apply map_ext_in. intros c Hc.
  pose proof (splitRuns_chars _ _ _ _ _ H Hc) as Hin.
  unfold toLowerCase in Hin. apply in_map_iff in Hin.
  destruct Hin as [c0 [<- _]]. apply lowerChar_fixed.
Qed.

Lemma filter_all {A} (f : A -> bool) l :
  (forall x, In x l -> f x = true) -> filter f l = l.
Proof.
  induction l as [|x l IH]; intros H; [reflexivity|]. simpl.
  rewrite (H x (or_introl eq_refl)), IH; [reflexivity|].
  intros y Hy. apply H. now right.
Qed.

(** Asked the question itself, every important word of the question is
    matched. *)
Lemma all_words_match x :
  let q := toLowerCase x in
  filter (wordMatches (map toLowerCase (wordsOver2 q))) (importantWords q)
  = importantWords q.
Proof.
  intros q. apply filter_all. intros w Hw.
  unfold importantWords in Hw. apply filter_In in Hw. destruct Hw as [Hw _].
  unfold wordMatches. apply existsb_exists. exists w. split.
  - apply in_map_iff. exists w. split; [now apply (words_lower x) | exact Hw].
  - now rewrite strEq_refl.
Qed.

Lemma round_eq p q : (p == q)%Q -> Float64.round p = Float64.round q.
Proof. intros H. unfold Float64.round. now rewrite (Qred_complete _ _ H). Qed.

Lemma div_self n :
  Float64.div (Float64.ofNat (S n)) (Float64.ofNat (S n)) = 1%Q.
Proof.
  unfold Float64.div. rewrite (round_eq _ 1%Q); [reflexivity|].
  apply Qmult_inv_r. unfold Float64.ofNat, Qeq. simpl. lia.
Qed.

Lemma wordShare_self x :
  let q := toLowerCase x in
  (0 <? length (importantWords q)) = true -> wordShare q q = 50%Q.
Proof.
  intros q H. unfold wordShare. fold q. unfold q at 1 2.
  rewrite (all_words_match x). fold q.
  destruct (length (importantWords q)) as [|n]; [discriminate|].
  now rewrite div_self.
Qed.

Lemma Qgtb_lt a b : Qgtb a b = true <-> (b < a)%Q.
Proof.
  unfold Qgtb. rewrite negb_true_iff. split; intros H.
  - apply Qnot_le_lt. intros Hle. apply Qle_bool_iff in Hle. congruence.
  - destruct (Qle_bool a b) eqn:E; [|reflexivity].
    apply Qle_bool_iff in E. exfalso. apply (Qlt_not_le _ _ H). exact E.
Qed.

Lemma Qgtb_le a b : Qgtb a b = false <-> (a <= b)%Q.
Proof.
  unfold Qgtb. rewrite negb_false_iff. apply Qle_bool_iff.
Qed.

(** What the selection loop has in hand after the pairs [seen]. *)
Definition picked (message : str) (seen : list QA) (acc : option QA * Q)
  : Prop :=
  (0 <= snd acc)%Q /\
  (forall qa, In qa seen -> (score message qa <= snd acc)%Q) /\
  match fst acc with
  | Some best => In best seen /\ snd acc = score message best
  | None => snd acc = 0%Q
  end.

Lemma pickStep_picked message seen acc qa :
  picked message seen acc ->
  picked message (seen ++ [qa]) (pickStep message acc qa).
Proof.
  intros [H0 [Hmax Hbest]]. unfold pickStep.
  destruct (Qgtb (score message qa) (snd acc)) eqn:E.
  - apply Qgtb_lt in E. simpl. repeat split.
    + eapply Qle_trans; [exact H0 | apply Qlt_le_weak; exact E].
    + intros qa' Hin. apply in_app_or in Hin. destruct Hin as [Hin|[->|[]]].
      * eapply Qle_trans; [apply Hmax, Hin | apply Qlt_le_weak; exact E].
      * apply Qle_refl.
    + apply in_or_app. right. now left.
  - apply Qgtb_le in E. repeat split; [exact H0 | |].
    + intros qa' Hin. apply in_app_or in Hin. destruct Hin as [Hin|[->|[]]].
      * apply Hmax, Hin.
      * exact E.
    + destruct (fst acc) as [best|]; [|exact Hbest].
      destruct Hbest as [Hin Hs]. split; [|exact Hs].
      apply in_or_app. now left.
Qed.

Lemma fold_picked message pairs : forall seen acc,
  picked message seen acc ->
  picked message (seen ++ pairs) (fold_left (pickStep message) pairs acc).
Proof.
  induction pairs as [|qa pairs IH]; intros seen acc H; simpl.
  - now rewrite app_nil_r.
  - replace (seen ++ qa :: pairs) with ((seen ++ [qa]) ++ pairs)
      by (rewrite <- app_assoc; reflexivity).
    apply IH. now apply pickStep_picked.
Qed.

Lemma pickBest_picked message pairs :
  picked message pairs (pickBest message pairs).
Proof.
  unfold pickBest. apply (fold_picked message pairs [] (None, 0%Q)).
  repeat split; simpl; [apply Qle_refl | intros ? []].
Qed.

(** The score of a pair whose question is the message: 100, the whole of
    the 50 for the words when the question has important words, and the
    bonuses, all of them integers. *)
Lemma score_self message qa :
  message = toLowerCase (question qa) -> (100 <= score message qa)%Q.
Proof.
  intros E. unfold score. rewrite <- E.
  rewrite subPenalty_self. unfold addPhrase. rewrite phraseHit_self.
  unfold addWordShare.
  destruct (0 <? length (importantWords message)) eqn:L.
  - rewrite E in L |- *. rewrite (wordShare_self (question qa) L).
    unfold addBonuses, bonuses. cbn [fold_left]. unfold addBonus.
    cbn [fst snd].
    repeat match goal with
           | |- context [if ?c then _ else _] => destruct c
           end; apply Qle_bool_imp_le; vm_compute; reflexivity.
  - unfold addBonuses, bonuses. cbn [fold_left]. unfold addBonus.
    cbn [fst snd].
    repeat match goal with
           | |- context [if ?c then _ else _] => destruct c
           end; apply Qle_bool_imp_le; vm_compute; reflexivity.
Qed.

Lemma fold_below message l : forall acc s,
  (snd acc < s)%Q ->
  (forall x, In x l -> (score message x < s)%Q) ->
  (snd (fold_left (pickStep message) l acc) < s)%Q.
Proof.
  induction l as [|x l IH]; intros acc s Ha Hl; [exact Ha|].
  simpl. apply IH.
  - unfold pickStep. destruct (Qgtb (score message x) (snd acc)); simpl;
      [apply Hl; now left | exact Ha].
  - intros y Hy. apply Hl. now right.
Qed.

Lemma fold_keep message l : forall acc,
  (forall x, In x l -> (score message x <= snd acc)%Q) ->
  fold_left (pickStep message) l acc = acc.
Proof.
  induction l as [|x l IH]; intros acc Hl; [reflexivity|].
  simpl. unfold pickStep at 2.
  assert (E : Qgtb (score message x) (snd acc) = false)
    by (apply Qgtb_le, Hl; now left).
  rewrite E. apply IH. intros y Hy. apply Hl. now right.
Qed.

(** The loop selects the pair that scores more than 0, more than every pair
    before it and at least as much as every pair after it. *)
Lemma pickBest_earliest message before qa after :
  (0 < score message qa)%Q ->
  (forall x, In x before -> (score message x < score message qa)%Q) ->
  (forall x, In x after -> (score message x <= score message qa)%Q) ->
  pickBest message (before ++ qa :: after) = (Some qa, score message qa).
Proof.
  intros H0 Hb Ha. unfold pickBest. rewrite fold_left_app. cbn [fold_left].
  pose proof (fold_below message before (None, 0%Q) (score message qa) H0 Hb)
    as Hlt.
  unfold pickStep at 2. apply Qgtb_lt in Hlt. rewrite Hlt.
  apply fold_keep. exact Ha.
Qed.

(** C2 (as the code has it). Q and A scorer, exact match: when the
    lower-cased query is a stored question, that pair scores 100 or more;
    the loop selects a pair of the document whose score no other pair
    exceeds; that score is at least the one of the exact match, so above 15;
    the stage returns the answer stored for the selected pair, verbatim, and
    so does [getAnswerFromData] when the product stage gave nothing.  The
    selected pair is the exact match itself, and its answer the one
    returned, when every pair before it scores strictly less and no pair
    after it scores more.  Conversely the stage returns nothing when the
    best score is 15 or less. *)
Theorem qa_exact_match userMessage dataContent :
  let message := toLowerCase userMessage in
  let lines := splitChar nl dataContent in
  let pairs := parseQA lines in
  (forall qa,
     In qa pairs -> message = toLowerCase (question qa) ->
     (100 <= score message qa)%Q /\
     exists best,
       fst (pickBest message pairs) = Some best /\
       In best pairs /\
       (forall other, In other pairs ->
          (score message other <= score message best)%Q) /\
       (15 < score message best)%Q /\
       qaStage message lines = Some (answer best) /\
       (truthy dataContent = true -> productStage message lines = None ->
        getAnswerFromData userMessage dataContent = Some (answer best)))
  /\
  (forall before qa after,
     pairs = before ++ qa :: after ->
     message = toLowerCase (question qa) ->
     (forall other, In other before ->
        (score message other < score message qa)%Q) ->
     (forall other, In other after ->
        (score message other <= score message qa)%Q) ->
     qaStage message lines = Some (answer qa))
  /\
  ((snd (pickBest message pairs) <= 15)%Q -> qaStage message lines = None).
Proof.
  intros message lines pairs. split; [|split].
  - intros qa Hin Heq.
    pose proof (score_self message qa Heq) as H100.
    split; [exact H100|].
    destruct (pickBest_picked message pairs) as [H0 [Hmax Hbest]].
    destruct (pickBest message pairs) as [[best|] bestScore] eqn:E;
      simpl in *.
    + destruct Hbest as [Hb Hs]. subst bestScore.
      assert (H15 : (15 < score message best)%Q).
      { eapply Qlt_le_trans; [|apply Hmax, Hin].
        eapply Qlt_le_trans; [|exact H100]. reflexivity. }
      assert (Hq : qaStage message lines = Some (answer best)).
      { unfold qaStage. fold pairs. rewrite E.
        apply Qgtb_lt in H15. now rewrite H15. }
      exists best. repeat split; auto.
      intros Ht Hp. unfold getAnswerFromData. rewrite Ht. simpl.
      fold message. fold lines. rewrite Hp, Hq. reflexivity.
    + subst bestScore. exfalso.
      apply (Qlt_not_le 0 100); [reflexivity|].
      eapply Qle_trans; [exact H100 | apply Hmax, Hin].
  - intros before qa after Hp Heq Hb Ha.
    pose proof (score_self message qa Heq) as H100.
    assert (H0 : (0 < score message qa)%Q)
      by (eapply Qlt_le_trans; [|exact H100]; reflexivity).
    assert (H15 : (15 < score message qa)%Q)
      by (eapply Qlt_le_trans; [|exact H100]; reflexivity).
    unfold qaStage. fold pairs. rewrite Hp.
    rewrite (pickBest_earliest message before qa after H0 Hb Ha).
    apply Qgtb_lt in H15. now rewrite H15.
  - intros Hle. unfold qaStage. fold pairs.
    destruct (pickBest message pairs) as [[best|] bestScore]; [|reflexivity].
    simpl in Hle. apply Qgtb_le in Hle. now rewrite Hle.
Qed.

(** The pair selected is the first of those with the highest score: here
    the stored question "track my order" is asked, the earlier question
    "track my order?" scores the same 170, and its answer is returned. *)
Example tie_goes_to_the_earlier_pair :
  let doc := unlines [ lit "Q: Track my order?"; lit "A: first answer"; [];
                       lit "Q: Track my order"; lit "A: second answer" ] in
  map (fun qa => Qeq_bool (score (lit "track my order") qa) 170%Q)
      (parseQA (splitChar nl doc)) = [true; true] /\
  qaStage (lit "track my order") (splitChar nl doc)
    = Some (lit "first answer").
Proof. split; reflexivity. Qed.

(** The scores are compared as the numbers they are: of these two pairs
    the first scores ((0 + (1/6) * 50) + 30) - 10 and the second
    (0 + (1/6) * 50) + 20, the first number is the smaller one, and the
    answer of the second pair is returned. *)
Example later_pair_by_rounding :
  let doc := unlines
    [ lit "Q: wrong item track aaaa bbbb cccc"; lit "A: first answer"; [];
      lit "Q: latest dddd eeee ffff gggg hhhh"; lit "A: second answer" ] in
  let message := lit "wrong itemx latest" in
  match parseQA (splitChar nl doc) with
  | [first; second] =>
      (score message first < score message second)%Q /\
      (score message second - score message first == 1 # 2 ^ 48)%Q
  | _ => False
  end /\
  qaStage message (splitChar nl doc) = Some (lit "second answer").
Proof. vm_compute. repeat split. Qed.

(** A document with two pairs; the second question is asked, in capitals. *)
Definition faqDoc : str :=
  unlines
    [ lit "ORDERS:";
      lit "Q: How do I track my order?";
      lit "A: Use the tracking page.";
      lit "It is updated daily.";
      [];
      lit "Q: Can I cancel my order?";
      lit "A: Yes, within one hour." ].

Lemma qa_exact_match_witness :
  getAnswerFromData (lit "CAN I CANCEL MY ORDER?") faqDoc
    = Some (lit "Yes, within one hour.") /\
  qaStage (lit "can i cancel my order?") (splitChar nl faqDoc)
    = Some (lit "Yes, within one hour.") /\
  qaStage (lit "zebra") (splitChar nl faqDoc) = None.
Proof.
  destruct (qa_exact_match (lit "CAN I CANCEL MY ORDER?") faqDoc)
    as [H [He _]].
  destruct (H (mkQA (lit "can i cancel my order?") (lit "Yes, within one hour.")))
    as [_ [best [Hb [_ [_ [_ [_ Hg]]]]]]].
  - vm_compute. right. left. reflexivity.
  - reflexivity.
  - destruct (qa_exact_match (lit "zebra") faqDoc) as [_ [_ H0]].
    split; [|split].
    + rewrite Hg; [|reflexivity|reflexivity].
      vm_compute in Hb. inversion Hb. reflexivity.
    + apply (He [mkQA (lit "how do i track my order?")
                   (lit "Use the tracking page. It is updated daily.")]
                (mkQA (lit "can i cancel my order?")
                   (lit "Yes, within one hour.")) []).
      * reflexivity.
      * reflexivity.
      * intros other [<-|[]]. apply Qgtb_lt. vm_compute. reflexivity.
      * intros other [].
    + apply H0. apply Qle_bool_imp_le. vm_compute. reflexivity.
Defined.

(** Two stored questions: the query "Where" is the first of them and is
    contained in the second. *)
Definition whereDoc : str :=
  unlines
    [ lit "Q: Where"; lit "A: answer one"; [];
      lit "Q: Somewhere"; lit "A: answer two" ].

(** C2 as stated fails: the query "Where" equals the stored question
    "Where" up to case; that pair scores 100, the pair of "Somewhere" scores
    150 (it contains the query, and its one important word is matched), and
    the answer returned is the one stored for "Somewhere", not the one
    stored for the exact match. *)
Lemma exact_match_is_outscored :
  parseQA (splitChar nl whereDoc)
    = [ mkQA (lit "where") (lit "answer one");
        mkQA (lit "somewhere") (lit "answer two") ] /\
  toLowerCase (lit "Where") = lit "where" /\
  map (score (toLowerCase (lit "Where"))) (parseQA (splitChar nl whereDoc))
    = [100%Q; 150%Q] /\
  getAnswerFromData (lit "Where") whereDoc = Some (lit "answer two") /\
  getAnswerFromData (lit "Where") whereDoc <> Some (lit "answer one").
Proof.
  repeat split; try reflexivity. vm_compute. discriminate.
Qed.

End QAFacts.

(* ================================================================== *)
(** ** Product matcher *)
(* ================================================================== *)

Module ProductFacts.

(** The shapes of lines the loop tells apart, for the product [p]. *)

(** The line is a header that opens the section of [p]. *)
Definition opens (p raw : str) : bool :=
  let line := trim raw in
  isHeader line && negb (includes line (lit "===")) &&
  headerMatches p (toLowerCase (removeFirst (lit ":") line)).

(** The line is neither a header nor a separator. *)
Definition plain (raw : str) : bool :=
  let line := trim raw in
  negb (isHeader line) && negb (startsWith line (lit "===")).

(** A plain line without the label of the warranty period. *)
Definition quiet (raw : str) : bool :=
  plain raw && negb (includesCI (trim raw) (lit "- Warranty period:")).

(** The line ends the section of [p]: the header of another product, or a
    separator (which is still searched for a period before the loop
    stops). *)
Definition closes (p raw : str) : bool :=
  let line := trim raw in
  (isHeader line && negb (includes line (lit "===")) &&
   negb (headerMatches p (toLowerCase (removeFirst (lit ":") line))))
  || (startsWith line (lit "===") &&
      negb (includesCI line (lit "- Warranty period:"))).

Definition sectionEnds (p : str) (rest : list str) : Prop :=
  match rest with
  | [] => True
  | t :: _ => closes p t = true
  end.

(** The two optional parts of the reply. *)
Definition serviceText (ws : option str) : str :=
  match ws with
  | Some (c :: w) => lit ". " ++ c :: w
  | _ => []
  end.

Definition servicesText (rs : list str) : str :=
  match rs with
  | [] => []
  | _ => lit ". Repair services available: " ++ join (lit ", ") rs ++ lit "."
  end.

Lemma composeReply_shape st wp :
  warrantyPeriod st = Some wp ->
  composeReply st
  = Some (lit "Warranty period: " ++ wp ++ serviceText (warrantyService st)
          ++ servicesText (repairServices st)).
Proof.
  intros H. unfold composeReply, serviceText, servicesText. rewrite H.
  destruct (warrantyService st) as [[|c w]|];
    destruct (repairServices st) as [|r rs];
    rewrite <- ?app_assoc, ?app_nil_r; reflexivity.
Qed.

(** *** The pattern of the period on a well-formed line *)

Lemma foldAZ_refl c : chEq (foldAZ c) (foldAZ c) = true.
Proof. apply Ascii.eqb_refl. Qed.

Lemma stripPrefixCI_app p r : stripPrefixCI p (p ++ r) = Some r.
Proof.
  induction p as [|y p IH]; simpl; [destruct r; reflexivity|].
  now rewrite foldAZ_refl.
Qed.

Lemma includesCI_start s p : startsWithCI s p = true -> includesCI s p = true.
Proof. intros H. destruct s; simpl in *; rewrite H; reflexivity. Qed.

Lemma digit_not_space c : isDigit c = true -> isSpace c = false.
Proof.
  destruct c as [[] [] [] [] [] [] [] []]; try reflexivity; discriminate.
Qed.

Lemma takeWhile_stop f n c r :
  Forall (fun x => f x = true) n -> f c = false ->
  takeWhile f (n ++ c :: r) = n.
Proof.
  intros Hn Hc. induction Hn as [|x n Hx Hn IH]; simpl.
  - now rewrite Hc.
  - now rewrite Hx, IH.
Qed.

Lemma dropWhile_stop f n c r :
  Forall (fun x => f x = true) n -> f c = false ->
  dropWhile f (n ++ c :: r) = c :: r.
Proof.
  intros Hn Hc. induction Hn as [|x n Hx Hn IH]; simpl.
  - now rewrite Hc.
  - now rewrite Hx, IH.
Qed.

Definition periodLine (n : str) : str :=
  lit "- Warranty period: " ++ n ++ lit " Months".

Lemma periodAt_number n :
  n <> [] -> Forall (fun c => isDigit c = true) n ->
  periodAt (lit "Warranty period: " ++ n ++ lit " Months") = Some n.
Proof.
  intros Hne Hd. unfold periodAt.
  change (lit "Warranty period: ")
    with (lit "Warranty period:" ++ [" "%char]).
  rewrite <- app_assoc, stripPrefixCI_app.
  destruct n as [|d n]; [congruence|].
  inversion Hd as [|? ? Hd1 Hdn]; subst.
  assert (E : dropWhile isSpace ([" "%char] ++ (d :: n) ++ lit " Months")
              = (d :: n) ++ " "%char :: lit "Months").
  { simpl. now rewrite (digit_not_space d Hd1). }
  rewrite E.
  rewrite (takeWhile_stop isDigit (d :: n) " "%char (lit "Months") Hd eq_refl).
  rewrite (dropWhile_stop isDigit (d :: n) " "%char (lit "Months") Hd eq_refl).
  reflexivity.
Qed.

Lemma findPeriod_here s n : periodAt s = Some n -> findPeriod s = Some n.
Proof.
  intros H. destruct s as [|c s']; [vm_compute in H; discriminate|].
  cbn [findPeriod]. now rewrite H.
Qed.

Lemma findPeriod_skip c s :
  periodAt (c :: s) = None -> findPeriod (c :: s) = findPeriod s.
Proof. intros H. cbn [findPeriod]. now rewrite H. Qed.

Lemma periodLine_head n :
  periodLine n
  = "-"%char :: " "%char :: lit "Warranty period: " ++ n ++ lit " Months".
Proof. reflexivity. Qed.

Lemma findPeriod_periodLine n :
  n <> [] -> Forall (fun c => isDigit c = true) n ->
  findPeriod (periodLine n) = Some n.
Proof.
  intros Hne Hd. rewrite periodLine_head.
  rewrite findPeriod_skip by reflexivity.
  rewrite findPeriod_skip by reflexivity.
  apply findPeriod_here. now apply periodAt_number.
Qed.

Lemma label_periodLine n :
  includesCI (periodLine n) (lit "- Warranty period:") = true.
Proof.
  apply includesCI_start. unfold startsWithCI, periodLine.
  change (lit "- Warranty period: ")
    with (lit "- Warranty period:" ++ [" "%char]).
  rewrite <- app_assoc, stripPrefixCI_app. reflexivity.
Qed.

Lemma plain_periodLine raw n : trim raw = periodLine n -> plain raw = true.
Proof. intros H. unfold plain. rewrite H. reflexivity. Qed.

(** *** The loop, line by line *)

Ltac loop_cases raw p :=
  cbn [productLoop]; cbv zeta;
  destruct (isHeader (trim raw)) eqn:?;
  destruct (includes (trim raw) (lit "===")) eqn:?;
  destruct (headerMatches p (toLowerCase (removeFirst (lit ":") (trim raw))))
    eqn:?;
  destruct (startsWith (trim raw) (lit "===")) eqn:?;
  cbn [andb orb negb] in *; try discriminate; try reflexivity.

Lemma loop_outside p st raw rest :
  inProductSection st = false -> opens p raw = false ->
  productLoop p st (raw :: rest) = productLoop p st rest.
Proof.
  intros Hin Ho. unfold opens in Ho.
  loop_cases raw p; rewrite ?Hin; cbn [andb]; rewrite ?Hin; reflexivity.
Qed.

Lemma loop_opens p st raw rest :
  opens p raw = true ->
  productLoop p st (raw :: rest)
  = productLoop p
      (mkScan true (trim raw) (warrantyPeriod st) (warrantyService st)
         (repairServices st)) rest.
Proof. intros Ho. unfold opens in Ho. loop_cases raw p. Qed.

Lemma loop_plain p st raw rest :
  inProductSection st = true -> plain raw = true ->
  productLoop p st (raw :: rest)
  = productLoop p (extractLine st (trim raw) rest) rest.
Proof.
  intros Hin Hp. unfold plain in Hp.
  loop_cases raw p; rewrite ?Hin; reflexivity.
Qed.

(** A header is made of capitals and blanks up to its colon. *)
Lemma separator_not_header line :
  startsWith line (lit "===") = true -> isHeader line = false.
Proof.
  destruct line as [|c s]; [reflexivity|]. simpl.
  destruct (chEq c "="%char) eqn:E; [|discriminate]. intros _.
  apply Ascii.eqb_eq in E. subst c. reflexivity.
Qed.

Lemma extractLine_in st line rest :
  inProductSection (extractLine st line rest) = inProductSection st.
Proof. reflexivity. Qed.

Lemma extractLine_quiet st line rest :
  includesCI line (lit "- Warranty period:") = false ->
  warrantyPeriod (extractLine st line rest) = warrantyPeriod st.
Proof. intros H. unfold extractLine. cbn [warrantyPeriod]. now rewrite H. Qed.

Lemma extractLine_period st raw n rest :
  trim raw = periodLine n ->
  n <> [] -> Forall (fun c => isDigit c = true) n ->
  warrantyPeriod (extractLine st (trim raw) rest) = Some (n ++ lit " Months").
Proof.
  intros E Hne Hd. unfold extractLine. cbn [warrantyPeriod]. rewrite E.
  now rewrite label_periodLine, findPeriod_periodLine.
Qed.

(** The loop stops at the end of the section with the period it has. *)
Lemma loop_stops p st rest :
  inProductSection st = true -> sectionEnds p rest ->
  warrantyPeriod (productLoop p st rest) = warrantyPeriod st.
Proof.
  intros Hin He. destruct rest as [|t rest]; [reflexivity|].
  simpl in He. unfold closes in He.
  destruct (startsWith (trim t) (lit "===")) eqn:Es.
  - pose proof (separator_not_header _ Es) as Hh.
    rewrite Hh in He. cbn [andb orb] in He.
    apply negb_true_iff in He.
    cbn [productLoop]; cbv zeta. rewrite Hh, Hin, Es. cbn [andb orb].
    now apply extractLine_quiet.
  - rewrite andb_false_l, orb_false_r in He.
    apply andb_true_iff in He. destruct He as [He Hm].
    apply andb_true_iff in He. destruct He as [Hh Hn].
    apply negb_true_iff in Hm.
    cbn [productLoop]; cbv zeta. rewrite Hh, Hn, Hm, Hin. reflexivity.
Qed.

Lemma loop_pre p pre : forall l,
  Forall (fun raw => opens p raw = false) pre ->
  productLoop p scan0 (pre ++ l) = productLoop p scan0 l.
Proof.
  induction pre as [|raw pre IH]; intros l H; [reflexivity|].
  inversion H as [|? ? Hr Hp]; subst. simpl app.
  rewrite loop_outside by (auto; reflexivity). now apply IH.
Qed.

Lemma loop_body p body : forall st l,
  inProductSection st = true ->
  Forall (fun raw => plain raw = true) body ->
  exists st1, productLoop p st (body ++ l) = productLoop p st1 l /\
              inProductSection st1 = true.
Proof.
  induction body as [|raw body IH]; intros st l Hin H.
  - exists st. auto.
  - inversion H as [|? ? Hr Hb]; subst. simpl app.
    rewrite loop_plain by assumption.
    apply IH; [now rewrite extractLine_in | exact Hb].
Qed.

Lemma loop_quiet p body : forall st rest,
  inProductSection st = true ->
  Forall (fun raw => quiet raw = true) body ->
  sectionEnds p rest ->
  warrantyPeriod (productLoop p st (body ++ rest)) = warrantyPeriod st.
Proof.
  induction body as [|raw body IH]; intros st rest Hin H He.
  - now apply loop_stops.
  - inversion H as [|? ? Hr Hb]; subst. simpl app.
    unfold quiet in Hr. apply andb_true_iff in Hr. destruct Hr as [Hp Hq].
    apply negb_true_iff in Hq.
    rewrite loop_plain by assumption.
    rewrite IH; [now apply extractLine_quiet | now rewrite extractLine_in
                | exact Hb | exact He].
Qed.

(** C1 (as the code has it). Product matcher: let [p] be the first product
    of the table with an alias in the lower-cased query, and let the
    document hold, after lines [pre] that do not open the section of [p], a
    header [hdr] that opens it, then lines that are neither headers nor
    separators, among them the line "- Warranty period: n Months" with [n] a
    number, no later line of the section carrying that label, and then the
    end of the document or a line that ends the section.  Then the reply is
    "Warranty period: n Months" with that [n], followed by ". " and the
    service sentence when one was found, and by
    ". Repair services available: " and the list and "." when the list
    collected is not empty. *)
Theorem product_matcher_reply userMessage dataContent p pre hdr b1 wline n b2
  rest :
  findProduct productKeywords (toLowerCase userMessage) = Some p ->
  splitChar nl dataContent = pre ++ hdr :: b1 ++ wline :: b2 ++ rest ->
  Forall (fun raw => opens p raw = false) pre ->
  opens p hdr = true ->
  Forall (fun raw => plain raw = true) b1 ->
  trim wline = periodLine n ->
  n <> [] ->
  Forall (fun c => isDigit c = true) n ->
  Forall (fun raw => quiet raw = true) b2 ->
  sectionEnds p rest ->
  let st := productLoop p scan0 (splitChar nl dataContent) in
  getAnswerFromData userMessage dataContent
  = Some (lit "Warranty period: " ++ (n ++ lit " Months")
          ++ serviceText (warrantyService st)
          ++ servicesText (repairServices st)).
Proof.
  intros Hp Hl Hpre Hhdr Hb1 Hw Hne Hd Hb2 He st.
  assert (Hwp : warrantyPeriod st = Some (n ++ lit " Months")).
  { unfold st. rewrite Hl. rewrite loop_pre by assumption.
    rewrite loop_opens by assumption.
    destruct (loop_body p b1
                (mkScan true (trim hdr) (warrantyPeriod scan0)
                   (warrantyService scan0) (repairServices scan0))
                (wline :: b2 ++ rest) eq_refl Hb1) as [st1 [E1 Hin1]].
    rewrite E1.
    rewrite loop_plain by (auto; eapply plain_periodLine; eauto).
    rewrite loop_quiet by (auto; rewrite extractLine_in; assumption).
    now apply extractLine_period. }
  assert (Ht : truthy dataContent = true).
  { destruct dataContent; [|reflexivity]. simpl in Hl.
    destruct pre as [|x [|y pre]]; simpl in Hl; try discriminate;
      destruct b1; discriminate. }
  unfold getAnswerFromData. rewrite Ht. cbn [negb].
  unfold productStage. rewrite Hp. fold st.
  rewrite (composeReply_shape st _ Hwp). reflexivity.
Qed.

(** The section of the tablet, written with its service sentence and its
    list of repair services. *)
Definition tabletDoc : str :=
  unlines
    [ lit "=== MOBILE DEVICES WARRANTY ===";
      lit "TABLET:";
      lit "- Warranty period: 24 Months";
      lit "- Warranty service offered: Our Samsung Authorised Service Partners offer both In and Out of warranty repairs";
      lit "- Repair services available:";
      lit "  - In-store repair";
      lit "  - Pick up repair";
      lit "  - Doorstep repair";
      [];
      lit "GALAXY RING:";
      lit "- Warranty period: 12 Months" ].

Lemma product_matcher_reply_witness :
  getAnswerFromData (lit "What is tablet warranty period?") tabletDoc
  = Some (lit "Warranty period: 24 Months. Our Samsung Authorised Service Partners offer both In and Out of warranty repairs. Repair services available: In-store repair, Pick up repair, Doorstep repair.").
Proof.
  rewrite (product_matcher_reply (lit "What is tablet warranty period?")
             tabletDoc (lit "tablet")
             [lit "=== MOBILE DEVICES WARRANTY ==="] (lit "TABLET:") []
             (lit "- Warranty period: 24 Months") (lit "24")
             [ lit "- Warranty service offered: Our Samsung Authorised Service Partners offer both In and Out of warranty repairs";
               lit "- Repair services available:";
               lit "  - In-store repair";
               lit "  - Pick up repair";
               lit "  - Doorstep repair";
               [] ]
             [lit "GALAXY RING:"; lit "- Warranty period: 12 Months"]).
  - reflexivity.
  - reflexivity.
  - reflexivity.
  - repeat constructor.
  - reflexivity.
  - constructor.
  - reflexivity.
  - discriminate.
  - repeat constructor.
  - repeat constructor.
  - reflexivity.
Defined.

(** The same query over a section that holds the period only. *)
Definition periodOnlyDoc : str :=
  unlines [lit "TABLET:"; lit "- Warranty period: 24 Months"].

(** C1 as stated fails: the section holds the period line, and the reply is
    the period alone, not a text of the form
    "Warranty period: 24 Months. service. Repair services available: list." *)
Lemma product_reply_not_always_composed :
  getAnswerFromData (lit "What is tablet warranty period?") periodOnlyDoc
    = Some (lit "Warranty period: 24 Months") /\
  ~ exists service list,
      getAnswerFromData (lit "What is tablet warranty period?") periodOnlyDoc
      = Some (lit "Warranty period: 24 Months. " ++ service
              ++ lit ". Repair services available: " ++ list ++ lit ".").
Proof.
  assert (E : getAnswerFromData (lit "What is tablet warranty period?")
                periodOnlyDoc = Some (lit "Warranty period: 24 Months"))
    by reflexivity.
  split; [exact E|].
  intros [service [list H]]. rewrite E in H. discriminate H.
Qed.

End ProductFacts.

(* ================================================================== *)
(** ** Warranty cache *)
(* ================================================================== *)

Module CacheFacts.

Lemma fresh_iff c now :
  fresh c now = true <->
  exists d t, data c = Some d /\ timestamp c = Some t /\
              d <> [] /\ t <> 0%Z /\ (now - t < CACHE_DURATION)%Z.
Proof.
  unfold fresh. split.
  - destruct (data c) as [d|]; [|discriminate].
    destruct (timestamp c) as [t|]; [|discriminate].
    intros H. apply andb_true_iff in H. destruct H as [H Hlt].
    apply andb_true_iff in H. destruct H as [Hd Ht].
    exists d, t. repeat split.
    + destruct d; [discriminate | discriminate].
    + apply negb_true_iff, Z.eqb_neq in Ht. exact Ht.
    + apply Z.ltb_lt. exact Hlt.
  - intros [d [t [-> [-> [Hd [Ht Hlt]]]]]].
    destruct d; [congruence|]. simpl.
    apply Z.eqb_neq in Ht. rewrite Ht. simpl. now apply Z.ltb_lt.
Qed.

(** C3 (as the code has it). Cache freshness: an entry is fresh exactly when
    it holds a text that is not empty and a timestamp that is not 0 and
    [now - fetched_at < TTL].  When a call at time [t] stored the text
    [text], not empty, and [t] is not 0, every call at a time [now] with
    [now - t < TTL] returns that same text, leaves the cache as it is and
    does not call the fetcher, whatever the site and the file would give. *)
Theorem cache_hit_within_ttl c0 t live file text now live' file' :
  let g := getWarrantyWithCache t live file c0 in
  fetched g = true ->
  result g = Some text ->
  text <> [] ->
  t <> 0%Z ->
  (now - t < CACHE_DURATION)%Z ->
  let g' := getWarrantyWithCache now live' file' (cacheAfter g) in
  (forall c n, fresh c n = true <->
     exists d s, data c = Some d /\ timestamp c = Some s /\
                 d <> [] /\ s <> 0%Z /\ (n - s < CACHE_DURATION)%Z) /\
  cacheAfter g = mkCache (Some text) (Some t) /\
  result g' = Some text /\
  fetched g' = false /\
  cacheAfter g' = cacheAfter g.
Proof.
  intros g Hf Hr Hne Ht Hlt g'.
  split; [apply fresh_iff|].
  assert (Hc : cacheAfter g = mkCache (Some text) (Some t)).
  { unfold g in *. unfold getWarrantyWithCache in *.
    destruct (fresh c0 t); [discriminate|].
    destruct live as [w|]; simpl in *; [congruence|].
    destruct file; simpl in *; congruence. }
  split; [exact Hc|].
  assert (Hfr : fresh (cacheAfter g) now = true).
  { apply fresh_iff. exists text, t. rewrite Hc. auto. }
  unfold g'. unfold getWarrantyWithCache. rewrite Hfr. simpl.
  rewrite Hc. auto.
Qed.

Lemma cache_hit_within_ttl_witness :
  let stored := cacheAfter (getWarrantyWithCache 1000 (Some (lit "TABLET:"))
                              Missing emptyCache) in
  let again := getWarrantyWithCache 3000000 None Missing stored in
  result again = Some (lit "TABLET:") /\ fetched again = false.
Proof.
  destruct (cache_hit_within_ttl emptyCache 1000 (Some (lit "TABLET:"))
              Missing (lit "TABLET:") 3000000 None Missing)
    as [_ [_ [Hr [Hf _]]]];
    [ reflexivity | reflexivity | discriminate | discriminate
    | reflexivity | ].
  split; [exact Hr | exact Hf].
Defined.

(** C3 as stated fails: the call at time 1000, the site failing, stores the
    empty text of an empty fallback file; the entry is younger than the TTL
    at time 2000 and is not fresh, and the call at time 2000 calls the
    fetcher again. *)
Lemma cache_empty_text_not_fresh :
  let first := getWarrantyWithCache 1000 None (Content []) emptyCache in
  let second := getWarrantyWithCache 2000 None (Content []) (cacheAfter first) in
  result first = Some [] /\
  cacheAfter first = mkCache (Some []) (Some 1000%Z) /\
  (2000 - 1000 < CACHE_DURATION)%Z /\
  fresh (cacheAfter first) 2000 = false /\
  fetched second = true.
Proof. repeat split. Qed.

Definition unavailable (file : File) : bool :=
  match file with
  | Content _ => false
  | Missing | Unreadable => true
  end.

(** C4 (as the code has it). Cache fallback: a call fails exactly when the
    entry is not fresh, the site fails and the fallback file is missing or
    unreadable.  When the entry is not fresh, the site fails and the file
    can be read, the call returns the text of the file and stores it with
    the time of the call; when that text is not empty and the time is not
    0, every later call within the TTL returns the same text without error
    and without calling the fetcher, the site still failing. *)
Theorem cache_fallback c now live file :
  (result (getWarrantyWithCache now live file c) = None <->
     fresh c now = false /\ live = None /\ unavailable file = true) /\
  (forall fileData,
     fresh c now = false -> live = None -> file = Content fileData ->
     let g := getWarrantyWithCache now live file c in
     result g = Some fileData /\
     cacheAfter g = mkCache (Some fileData) (Some now) /\
     (fileData <> [] -> now <> 0%Z ->
      forall later file',
        (later - now < CACHE_DURATION)%Z ->
        let g' := getWarrantyWithCache later None file' (cacheAfter g) in
        result g' = Some fileData /\ fetched g' = false)).
Proof.
  split.
  - unfold getWarrantyWithCache. destruct (fresh c now) eqn:Hf.
    + simpl. apply fresh_iff in Hf. destruct Hf as [d [t [Hd _]]].
      rewrite Hd. split; [discriminate | intros [? _]; discriminate].
    + destruct live as [w|]; simpl.
      * split; [discriminate | intros [_ [? _]]; discriminate].
      * destruct file; simpl; split; auto; try discriminate;
          intros [_ [_ ?]]; discriminate.
  - intros fileData Hf Hl Hfile g. subst live file.
    unfold g, getWarrantyWithCache. rewrite Hf. simpl.
    split; [reflexivity|]. split; [reflexivity|].
    intros Hne Hn later file' Hlt.
    assert (Hfr : fresh (mkCache (Some fileData) (Some now)) later = true).
    { apply fresh_iff. exists fileData, now. auto. }
    rewrite Hfr. simpl. auto.
Qed.

Lemma cache_fallback_witness :
  let first := getWarrantyWithCache 1000 None (Content (lit "TABLET:"))
                 emptyCache in
  let second := getWarrantyWithCache 2000 None Missing (cacheAfter first) in
  result (getWarrantyWithCache 1000 None Missing emptyCache) = None /\
  result first = Some (lit "TABLET:") /\
  result second = Some (lit "TABLET:") /\ fetched second = false.
Proof.
  destruct (cache_fallback emptyCache 1000 None Missing) as [[_ Hfail] _].
  destruct (cache_fallback emptyCache 1000 None (Content (lit "TABLET:")))
    as [_ Hfile].
  destruct (Hfile (lit "TABLET:") eq_refl eq_refl eq_refl) as [Hr [Hc Hl]].
  destruct (Hl ltac:(discriminate) ltac:(discriminate) 2000%Z Missing
              eq_refl) as [Hr2 Hf2].
  split; [apply Hfail; repeat split|].
  split; [exact Hr|]. split; [exact Hr2 | exact Hf2].
Defined.

(** C4 as stated fails: the site fails and the fallback file exists, empty;
    the call returns and stores its text, and the next call, one second
    later and the site still failing, attempts the fetch again. *)
Lemma empty_fallback_file_refetched :
  let first := getWarrantyWithCache 5000 None (Content []) emptyCache in
  let second := getWarrantyWithCache 6000 None (Content []) (cacheAfter first) in
  result first = Some [] /\
  timestamp (cacheAfter first) = Some 5000%Z /\
  (6000 - 5000 < CACHE_DURATION)%Z /\
  fetched second = true.
Proof. repeat split. Qed.

End CacheFacts.

(* ================================================================== *)
(** ** Response composer *)
(* ================================================================== *)

Module ComposerFacts.

Lemma andThen_skip rest : andThen (None, []) rest = rest.
Proof. destruct rest; reflexivity. Qed.

Lemma andThen_fst_skip first rest :
  fst first = None -> fst (andThen first rest) = fst rest.
Proof. destruct first as [[r|] t]; simpl; [discriminate | reflexivity]. Qed.

Lemma andThen_fst_hit first rest r :
  fst first = Some r -> fst (andThen first rest) = Some r.
Proof.
  destruct first as [[r'|] t]; simpl; [auto | discriminate].
Qed.

Lemma topicBlock_skip disk userMessage message ps topic accept reply :
  matches message ps = false ->
  topicBlock disk userMessage message ps topic accept reply = (None, []).
Proof. intros H. unfold topicBlock. now rewrite H. Qed.

(** [getDataFromFile] knows the payments file under the topics "payment",
    "pay" and "billing"; the composer asks for "payments", which is none of
    them, so that block never has data and touches no file. *)
Lemma topicBlock_payments disk userMessage message ps accept reply :
  topicBlock disk userMessage message ps (lit "payments") accept reply
  = (None, []).
Proof.
  unfold topicBlock, getDataFromFile.
  change (fileNameFor (lit "payments")) with (@None str).
  destruct (matches message ps); reflexivity.
Qed.

Ltac open_response :=
  unfold getImprovedMockResponse; cbv zeta.

(** C5 (as the code has it). Canned intents: the greeting and "how are you"
    are tested before any topic and return their fixed reply without
    touching a knowledge file.  Help, thanks and goodbye are tested after
    the returns, shipping, payments and orders topics: for a message that
    matches none of the returns, shipping and orders patterns they return
    their fixed reply without touching a knowledge file (the payments block
    never has a file to read).  The query "bye" gets the goodbye
    reply and touches no file, whatever the disk holds. *)
Theorem canned_intents disk userMessage :
  let message := trim (toLowerCase userMessage) in
  let out := getImprovedMockResponse disk userMessage in
  (isGreeting message = true -> out = (greetingReply, [])) /\
  (isGreeting message = false -> matches message howAreYouPats = true ->
   out = (howAreYouReply, [])) /\
  (isGreeting message = false -> matches message howAreYouPats = false ->
   matches message returnsPats = false ->
   matches message shippingPats = false ->
   matches message ordersPats = false ->
   (includes message (lit "help") = true -> out = (helpReply, [])) /\
   (includes message (lit "help") = false ->
    matches message thanksPats = true -> out = (thanksReply, [])) /\
   (includes message (lit "help") = false ->
    matches message thanksPats = false ->
    matches message goodbyePats = true -> out = (goodbyeReply, []))) /\
  getImprovedMockResponse disk (lit "bye") = (goodbyeReply, []).
Proof.
  intros message out. unfold out.
  split; [|split; [|split]].
  - intros Hg. open_response. fold message. rewrite Hg. reflexivity.
  - intros Hg Hh. open_response. fold message. rewrite Hg, Hh. reflexivity.
  - intros Hg Hh H1 H2 H4.
    assert (E : getImprovedMockResponse disk userMessage
                = if includes message (lit "help") then (helpReply, [])
                  else if matches message thanksPats then (thanksReply, [])
                  else if matches message goodbyePats then (goodbyeReply, [])
                  else getImprovedMockResponse disk userMessage).
    { open_response. fold message. rewrite Hg, Hh.
      rewrite topicBlock_payments.
      rewrite !topicBlock_skip by assumption.
      unfold canned at 1 2. rewrite !andThen_skip.
      destruct (includes message (lit "help")); [reflexivity|].
      destruct (matches message thanksPats); [reflexivity|].
      destruct (matches message goodbyePats); reflexivity. }
    split; [|split].
    + intros Hp. rewrite E, Hp. reflexivity.
    + intros Hp Ht. rewrite E, Hp, Ht. reflexivity.
    + intros Hp Ht Hb. rewrite E, Hp, Ht, Hb. reflexivity.
  - reflexivity.
Qed.

(** A disk that holds the returns file only. *)
Definition returnsDisk : Disk :=
  fun fileName =>
    if strEq fileName (lit "returns.txt") then
      Content (unlines
        [ lit "RETURNS:";
          lit "Refunds are issued within ten days of receiving the item back at our warehouse";
          lit "END:" ])
    else Missing.

Lemma canned_intents_witness :
  getImprovedMockResponse returnsDisk (lit "Hello there") = (greetingReply, []) /\
  getImprovedMockResponse returnsDisk (lit "So how are you?")
    = (howAreYouReply, []) /\
  getImprovedMockResponse returnsDisk (lit "I need help") = (helpReply, []) /\
  getImprovedMockResponse returnsDisk (lit "Thank you!") = (thanksReply, []) /\
  getImprovedMockResponse returnsDisk (lit "Goodbye") = (goodbyeReply, []).
Proof.
  split; [|split; [|split; [|split]]].
  - apply (canned_intents returnsDisk (lit "Hello there")). reflexivity.
  - apply (canned_intents returnsDisk (lit "So how are you?")); reflexivity.
  - apply (canned_intents returnsDisk (lit "I need help")); reflexivity.
  - apply (canned_intents returnsDisk (lit "Thank you!")); reflexivity.
  - apply (canned_intents returnsDisk (lit "Goodbye")); reflexivity.
Defined.

(** C5 as stated fails: a message of thanks that names a refund is routed
    to the returns topic; the returns file is read and the reply is taken
    from it. *)
Lemma thanks_after_topic_routing :
  let message := trim (toLowerCase (lit "thanks for the refund")) in
  let out := getImprovedMockResponse returnsDisk (lit "thanks for the refund") in
  matches message thanksPats = true /\
  isGreeting message = false /\
  matches message howAreYouPats = false /\
  snd out = [lit "returns.txt"] /\
  fst out <> thanksReply.
Proof.
  repeat split; try reflexivity. vm_compute. discriminate.
Qed.

(** The information a file gives the composer: none when it is missing,
    unreadable or empty. *)
Definition noData (disk : Disk) (fileName : str) : bool :=
  match disk fileName with
  | Content (_ :: _) => false
  | _ => true
  end.

Lemma topicBlock_noData disk userMessage message ps topic fileName accept
  reply :
  fileNameFor topic = Some fileName ->
  matches message ps = false \/ noData disk fileName = true ->
  fst (topicBlock disk userMessage message ps topic accept reply) = None.
Proof.
  intros Hn [H|H]; [now rewrite topicBlock_skip|].
  unfold topicBlock, getDataFromFile, noData in *. rewrite Hn.
  destruct (matches message ps); [|reflexivity].
  destruct (disk fileName) as [| |[|c t]]; try reflexivity; discriminate.
Qed.

Lemma ordersCanned_long message : 30 < length (ordersCanned message).
Proof.
  unfold ordersCanned.
  destruct (matches message orderIdPats); [vm_compute; lia|].
  destruct (matches message latestOrderPats); [vm_compute; lia|].
  destruct (matches message trackingPats); [vm_compute; lia|].
  destruct (matches message cancelPats); vm_compute; lia.
Qed.

(** C6. Orders acceptance: for a message that is neither a greeting nor a
    "how are you", that the returns and the shipping topic do not take
    (their pattern does not match, or their file gives no data; the
    payments block never takes a message), that matches the orders pattern, the orders file holding the text
    [data], not empty: the reply is the result of the extraction exactly
    when that result is longer than 30 characters; otherwise it is the first
    of the replies for an order id, the latest order, tracking and
    cancellation whose keywords the message matches, tried in that order,
    and the generic reply on orders when none does. *)
Theorem orders_acceptance disk userMessage data :
  let message := trim (toLowerCase userMessage) in
  let reply := fst (getImprovedMockResponse disk userMessage) in
  isGreeting message = false ->
  matches message howAreYouPats = false ->
  matches message returnsPats = false \/ noData disk (lit "returns.txt") = true ->
  matches message shippingPats = false \/ noData disk (lit "shipping.txt") = true ->
  matches message ordersPats = true ->
  disk (lit "orders.txt") = Content data ->
  data <> [] ->
  (forall answer, getAnswerFromData userMessage data = Some answer ->
     (reply = answer <-> 30 < length answer)) /\
  ((getAnswerFromData userMessage data = None \/
    exists answer, getAnswerFromData userMessage data = Some answer /\
                   length answer <= 30) ->
   reply =
     if matches message orderIdPats then orderIdReply
     else if matches message latestOrderPats then latestOrderReply
     else if matches message trackingPats then trackingReply
     else if matches message cancelPats then cancelReply
     else ordersReply).
Proof.
  intros message reply Hg Hh Hr Hs Ho Hd Hne.
  assert (E : reply =
              match getAnswerFromData userMessage data with
              | Some answer =>
                  if truthy answer && (30 <? length answer) then answer
                  else ordersCanned message
              | None => ordersCanned message
              end).
  { assert (B : fst (topicBlock disk userMessage message ordersPats
                        (lit "orders") (fun a => 30 <? length a)
                        (ordersCanned message))
                 = Some match getAnswerFromData userMessage data with
                        | Some answer =>
                            if truthy answer && (30 <? length answer)
                            then answer else ordersCanned message
                        | None => ordersCanned message
                        end).
    { unfold topicBlock. rewrite Ho. unfold getDataFromFile.
      change (fileNameFor (lit "orders")) with (Some (lit "orders.txt")).
      cbv iota. rewrite Hd.
      destruct data as [|c data]; [congruence|]. cbn [truthy].
      destruct (getAnswerFromData userMessage (c :: data)) as [answer|];
        [|reflexivity].
      destruct (truthy answer && (30 <? length answer)); reflexivity. }
    unfold reply. open_response. fold message. rewrite Hg, Hh. cbn [fst].
    unfold canned at 1 2.
    rewrite !andThen_skip.
    rewrite andThen_fst_skip
      by (eapply topicBlock_noData; [reflexivity | exact Hr]).
    rewrite andThen_fst_skip
      by (eapply topicBlock_noData; [reflexivity | exact Hs]).
    rewrite topicBlock_payments, andThen_skip.
    rewrite (andThen_fst_hit _ _ _ B). reflexivity. }
  split.
  - intros answer Ha. rewrite E, Ha.
    destruct (30 <? length answer) eqn:L.
    + destruct answer as [|a answer]; [discriminate L|].
      cbn [truthy andb].
      apply Nat.ltb_lt in L. split; auto.
    + rewrite andb_false_r. apply Nat.ltb_ge in L. split.
      * intros Heq. pose proof (ordersCanned_long message) as Hl.
        rewrite Heq in Hl. lia.
      * lia.
  - intros [Hn | [answer [Ha Hl]]]; rewrite E.
    + rewrite Hn. reflexivity.
    + rewrite Ha. apply Nat.leb_le in Hl.
      assert (L : (30 <? length answer) = false)
        by (apply Nat.ltb_ge; apply Nat.leb_le; exact Hl).
      rewrite L, andb_false_r. reflexivity.
Qed.

Definition ordersText : str :=
  unlines
    [ lit "Q: Where is my order?";
      lit "A: Check your email.";
      [];
      lit "Q: How do I reorder?";
      lit "A: Open your order history and press the reorder button." ].

(** A disk that holds the orders file only, with one short and one long
    answer. *)
Definition ordersDisk : Disk :=
  fun fileName =>
    if strEq fileName (lit "orders.txt") then Content ordersText
    else Missing.

Lemma orders_acceptance_witness :
  fst (getImprovedMockResponse ordersDisk (lit "Where is my order?"))
    = trackingReply /\
  fst (getImprovedMockResponse ordersDisk (lit "How do I reorder?"))
    = lit "Open your order history and press the reorder button.".
Proof.
  pose proof (orders_acceptance ordersDisk (lit "Where is my order?")
                ordersText eq_refl eq_refl (or_intror eq_refl)
                (or_intror eq_refl) eq_refl eq_refl ltac:(discriminate))
    as [_ Hshort].
  pose proof (orders_acceptance ordersDisk (lit "How do I reorder?")
                ordersText eq_refl eq_refl (or_intror eq_refl)
                (or_intror eq_refl) eq_refl eq_refl ltac:(discriminate))
    as [Hlong _].
  split.
  - rewrite Hshort; [reflexivity|].
    right. exists (lit "Check your email."). split; [reflexivity|].
    vm_compute. lia.
  - apply (Hlong (lit "Open your order history and press the reorder button."));
      [reflexivity | vm_compute; lia].
Defined.

End ComposerFacts.

(* ================================================================== *)
(** ** Generative responder: the retry *)
(* ================================================================== *)

Module ResponderFacts.

Import Responder.

(** The wait a refusal asks for: status 503 and a non-zero estimate. *)
Definition retries (a : Answer) : option Q :=
  match a with
  | Refused status (Some t) =>
      if (status =? 503)%Z && nonZero (parsed t) then Some t else None
  | _ => None
  end.

Lemma step_retry fuel service disk userMessage n ws t :
  retries (service n) = Some t ->
  getHuggingFaceResponse (S fuel) service disk userMessage n ws
  = getHuggingFaceResponse fuel service disk userMessage (S n)
      (ws ++ [waitFor t]).
Proof.
  intros H. cbn [getHuggingFaceResponse]. unfold retries in H.
  destruct (service n) as [|s|s [e|]|g]; try discriminate.
  destruct ((s =? 503)%Z && nonZero (parsed e)); [|discriminate].
  now inversion H.
Qed.

Lemma step_final fuel service disk userMessage n ws :
  retries (service n) = None ->
  exists run,
    getHuggingFaceResponse (S fuel) service disk userMessage n ws = Some run /\
    requests run = S n /\ waits run = ws.
Proof.
  intros H. cbn [getHuggingFaceResponse]. unfold retries in H.
  destruct (service n) as [|s|s [e|]|g]; try (eexists; repeat split; fail).
  - destruct ((s =? 503)%Z && nonZero (parsed e)); [discriminate|].
    eexists; repeat split.
  - destruct (truthy _ && _); eexists; repeat split.
Qed.

Lemma retry_chain service disk userMessage : forall k fuel n ws,
  (forall i, i < k -> retries (service (n + i)) <> None) ->
  retries (service (n + k)) = None ->
  k < fuel ->
  exists run,
    getHuggingFaceResponse fuel service disk userMessage n ws = Some run /\
    requests run = S (n + k) /\ length (waits run) = length ws + k.
Proof.
  induction k as [|k IH]; intros fuel n ws Hr Hf Hlt.
  - destruct fuel as [|fuel]; [lia|].
    rewrite Nat.add_0_r in *.
    destruct (step_final fuel service disk userMessage n ws Hf)
      as [run [E [Hq Hw]]].
    exists run. rewrite Hw. repeat split; auto.
  - destruct fuel as [|fuel]; [lia|].
    destruct (retries (service n)) as [t|] eqn:Et.
    + rewrite (step_retry _ _ _ _ _ _ t Et).
      destruct (IH fuel (S n) (ws ++ [waitFor t])) as [run [E [Hq Hw]]].
      * intros i Hi. replace (S n + i) with (n + S i) by lia.
        apply Hr. lia.
      * replace (S n + k) with (n + S k) by lia. exact Hf.
      * lia.
      * exists run. split; [exact E|]. split; [lia|].
        rewrite Hw, length_app. simpl. lia.
    + exfalso. apply (Hr 0); [lia|]. now rewrite Nat.add_0_r.
Qed.

Lemma retry_forever service disk userMessage : forall fuel n ws,
  (forall i, retries (service i) <> None) ->
  getHuggingFaceResponse fuel service disk userMessage n ws = None.
Proof.
  induction fuel as [|fuel IH]; intros n ws H; [reflexivity|].
  destruct (retries (service n)) as [t|] eqn:Et.
  - rewrite (step_retry _ _ _ _ _ _ t Et). now apply IH.
  - exfalso. now apply (H n).
Qed.

(** C9 (as the code has it). The retry: every answer with status 503 and a
    non-zero estimated_time is followed by a wait and a call of the function
    by itself, with no bound on their number.  When the first [k] answers
    are such refusals and the next one is not, the call returns after
    [k + 1] requests and [k] waits, given the fuel for them; when every
    answer is such a refusal the call returns for no amount of fuel. *)
Theorem retry_while_loading service disk userMessage :
  (forall k fuel,
     (forall i, i < k -> retries (service i) <> None) ->
     retries (service k) = None ->
     k < fuel ->
     exists run,
       getHuggingFaceResponse fuel service disk userMessage 0 [] = Some run /\
       requests run = S k /\ length (waits run) = k) /\
  ((forall i, retries (service i) <> None) ->
   forall fuel,
     getHuggingFaceResponse fuel service disk userMessage 0 [] = None).
Proof.
  split.
  - intros k fuel Hr Hf Hlt.
    destruct (retry_chain service disk userMessage k fuel 0 [] Hr Hf Hlt)
      as [run [E [Hq Hw]]].
    exists run. repeat split; auto.
  - intros H fuel. now apply retry_forever.
Qed.

Definition noDisk : Disk := fun _ => Missing.

Lemma retry_while_loading_witness :
  (exists run,
     getHuggingFaceResponse 10 (loadingFor 3 (lit "Your order is on its way."))
       noDisk (lit "order?") 0 [] = Some run /\
     requests run = 4 /\ length (waits run) = 3) /\
  getHuggingFaceResponse 1000 alwaysLoading noDisk (lit "order?") 0 [] = None.
Proof.
  split.
  - apply (retry_while_loading
             (loadingFor 3 (lit "Your order is on its way.")) noDisk
             (lit "order?")); [|reflexivity|lia].
    intros i Hi. destruct i as [|[|[|i]]]; try discriminate. lia.
  - apply (retry_while_loading alwaysLoading noDisk (lit "order?")).
    intros i. discriminate.
Defined.

(** C9 as stated fails: when the first two answers report the model as
    loading, the request is made three times, with two waits of 22 seconds,
    before the third answer is returned. *)
Lemma retried_more_than_once :
  getHuggingFaceResponse 5 (loadingFor 2 (lit "Your order is on its way."))
    noDisk (lit "order?") 0 []
  = Some (mkRun (lit "Your order is on its way.") 3
            [(20 * 1000 + 2000)%Q; (20 * 1000 + 2000)%Q]).
Proof. reflexivity. Qed.

End ResponderFacts.

(* ================================================================== *)
(** ** Live source fetcher: the known warranty periods *)
(* ================================================================== *)

Module ScraperFacts.

(** A page on which one element names the tablet, next to its period. *)
Definition tabletPage : Page :=
  mkPage
    [ mkNode (lit "Tablet") (lit "Tablet Warranty period 24 Months") [] ]
    [].

Lemma catalog_when_nothing_recognized p :
  recognized p = [] -> needsCatalog (scanned p) = true.
Proof. intros H. unfold scanned. rewrite H. reflexivity. Qed.

(** C8, the code at the failing input: the scan of [tabletPage] recognizes
    one record, for the tablet, and the known warranty periods are written
    after it all the same, because the test looks for the headers
    "SMARTPHONE:" and "COOKER HOOD:" only. *)
Theorem catalog_written_despite_record :
  recognized tabletPage
    = [recordText (lit "tablet") (lit "24 Months") threeServices] /\
  needsCatalog (scanned tabletPage) = true /\
  fetchWarrantyFromWebsite (Some tabletPage)
    = Some (header
            ++ recordText (lit "tablet") (lit "24 Months") threeServices
            ++ catalog
            ++ lit "=== WARRANTY FAQs ===" ++ [nl; nl] ++ footer).
Proof. repeat split. Qed.

End ScraperFacts.

(* ================================================================== *)
(** ** Further properties of the answer extraction *)
(* ================================================================== *)

From Stdlib Require Import Lqa.

Module ExtractFacts.

Import QAFacts ProductFacts.

(** *** Substrings *)

Lemma startsWith_split s p : startsWith s p = true -> exists r, s = p ++ r.
Proof.
  revert s. induction p as [|y p IH]; intros s H.
  - exists s. reflexivity.
  - destruct s as [|x s]; [discriminate|]. simpl in H.
    apply andb_true_iff in H. destruct H as [E H].
    apply Ascii.eqb_eq in E. subst x.
    destruct (IH s H) as [r ->]. exists r. reflexivity.
Qed.

Lemma includes_part s t : includes s t = true -> part t s.
Proof.
  induction s as [|c s IH]; cbn [includes]; intros H.
  - rewrite orb_false_r in H. destruct (startsWith_split _ _ H) as [r E].
    exists [], r. exact E.
  - apply orb_true_iff in H. destruct H as [H|H].
    + destruct (startsWith_split _ _ H) as [r E]. exists [], r. exact E.
    + destruct (IH H) as [a [b E]]. exists (c :: a), b. now rewrite E.
Qed.

Lemma includes_trans s a b :
  includes s a = true -> includes a b = true -> includes s b = true.
Proof.
  intros H1 H2. apply part_includes.
  eapply part_trans; apply includes_part; eassumption.
Qed.

(** *** The product table *)

Lemma findProduct_app pre post m :
  findProduct (pre ++ post) m
  = match findProduct pre m with
    | Some p => Some p
    | None => findProduct post m
    end.
Proof.
  induction pre as [|[p kws] pre IH]; simpl; [reflexivity|].
  destruct (existsb _ kws); [reflexivity | exact IH].
Qed.

Lemma findProduct_name table m p :
  findProduct table m = Some p -> In p (map fst table).
Proof.
  induction table as [|[q kws] table IH]; simpl; [discriminate|].
  destruct (existsb _ kws); intros H.
  - inversion H. now left.
  - right. now apply IH.
Qed.

(** X1. A message that says "galaxy" is matched to the tablet or to the
    smartphone, the first two products of the table: the watch, the buds
    and the ring are not reached, "galaxy watch" and "galaxy ring"
    included. *)
Theorem galaxy_is_tablet_or_smartphone m :
  includes m (lit "galaxy") = true ->
  findProduct productKeywords m = Some (lit "tablet") \/
  findProduct productKeywords m = Some (lit "smartphone").
Proof.
  intros H. unfold productKeywords. cbn [findProduct].
  destruct (existsb (fun keyword => includes m keyword)
              [lit "tablet"; lit "tab"]); [now left|].
  right. cbn [existsb]. rewrite H. now rewrite !orb_true_r.
Qed.

Lemma galaxy_is_tablet_or_smartphone_witness :
  findProduct productKeywords (lit "galaxy watch warranty")
  = Some (lit "smartphone").
Proof.
  destruct (galaxy_is_tablet_or_smartphone (lit "galaxy watch warranty")
              eq_refl) as [H|H]; [discriminate H | exact H].
Defined.

Definition tableHead : list (str * list str) := firstn 10 productKeywords.
Definition tableTail : list (str * list str) := skipn 12 productKeywords.

(** X2. The entry "robotic vacuum cleaners" of the table is never the product
    matched: each of its two aliases contains "vacuum", an alias of the
    entry "vacuum cleaners" before it. *)
Theorem robotic_entry_never_matched m :
  findProduct productKeywords m <> Some (lit "robotic vacuum cleaners").
Proof.
  change productKeywords
    with (tableHead
          ++ [ (lit "vacuum cleaners",
                 [lit "vacuum cleaners"; lit "vacuum cleaner"; lit "vacuum";
                  lit "robotic vacuum"]);
               (lit "robotic vacuum cleaners",
                 [lit "robotic vacuum cleaners"; lit "robotic vacuum"]) ]
          ++ tableTail).
  rewrite findProduct_app.
  destruct (findProduct tableHead m) as [p|] eqn:E.
  - apply findProduct_name in E. intros H. inversion H. subst p.
    vm_compute in E. intuition discriminate.
  - cbn [app findProduct existsb].
    destruct (includes m (lit "vacuum")) eqn:V.
    + cbn [orb]. rewrite !orb_true_r. discriminate.
    + assert (R1 : includes m (lit "robotic vacuum") = false).
      { destruct (includes m (lit "robotic vacuum")) eqn:R; [|reflexivity].
        rewrite (includes_trans m _ (lit "vacuum") R eq_refl) in V.
        discriminate. }
      assert (R2 : includes m (lit "robotic vacuum cleaners") = false).
      { destruct (includes m (lit "robotic vacuum cleaners")) eqn:R;
          [|reflexivity].
        rewrite (includes_trans m _ (lit "vacuum") R eq_refl) in V.
        discriminate. }
      rewrite R1, R2.
      destruct (includes m (lit "vacuum cleaners"));
        destruct (includes m (lit "vacuum cleaner"));
        cbn [orb]; try discriminate.
      intros H. apply findProduct_name in H.
      vm_compute in H. intuition discriminate.
Qed.

(** *** The period that is reported *)

Lemma takeWhile_all f s : Forall (fun c => f c = true) (takeWhile f s).
Proof.
  induction s as [|c s IH]; simpl; [constructor|].
  destruct (f c) eqn:E; constructor; assumption.
Qed.

Definition number (ds : str) : Prop :=
  ds <> [] /\ Forall (fun c => isDigit c = true) ds.

Lemma periodAt_number_inv s ds : periodAt s = Some ds -> number ds.
Proof.
  unfold periodAt. destruct (stripPrefixCI _ s) as [r|]; [|discriminate].
  pose proof (takeWhile_all isDigit (dropWhile isSpace r)) as Hall.
  destruct (takeWhile isDigit (dropWhile isSpace r)) as [|d ds'];
    [discriminate|].
  destruct (startsWithCI _ _); [|discriminate].
  intros H. inversion H. subst ds. split; [discriminate | exact Hall].
Qed.

Lemma findPeriod_number s : forall ds, findPeriod s = Some ds -> number ds.
Proof.
  induction s as [|c s IH]; intros ds; cbn [findPeriod].
  - destruct (periodAt []) eqn:E; [|discriminate].
    intros H. inversion H. subst. eapply periodAt_number_inv; eauto.
  - destruct (periodAt (c :: s)) eqn:E.
    + intros H. inversion H. subst. eapply periodAt_number_inv; eauto.
    + apply IH.
Qed.

Definition periodOk (wp : option str) : Prop :=
  match wp with
  | None => True
  | Some w => exists ds, w = ds ++ lit " Months" /\ number ds
  end.

Lemma extractLine_periodOk st line rest :
  periodOk (warrantyPeriod st) ->
  periodOk (warrantyPeriod (extractLine st line rest)).
Proof.
  intros H. unfold extractLine. cbn [warrantyPeriod].
  destruct (includesCI line _); [|exact H].
  destruct (findPeriod line) as [ds|] eqn:E; [|exact H].
  exists ds. split; [reflexivity|]. eapply findPeriod_number; eauto.
Qed.

Lemma productLoop_periodOk p ls : forall st,
  periodOk (warrantyPeriod st) ->
  periodOk (warrantyPeriod (productLoop p st ls)).
Proof.
  induction ls as [|raw rest IH]; intros st H; [exact H|].
  cbn [productLoop]. cbv zeta.
  destruct (isHeader (trim raw) && negb (includes (trim raw) (lit "===")) &&
            headerMatches p (toLowerCase (removeFirst (lit ":") (trim raw)))).
  - apply IH. exact H.
  - destruct (isHeader (trim raw) && negb (includes (trim raw) (lit "===")) &&
              inProductSection st && isHeader (trim raw)); [exact H|].
    destruct (inProductSection st); [|apply IH; exact H].
    destruct (startsWith (trim raw) (lit "===") ||
              isHeader (trim raw) &&
              negb (includes (trim raw) (productSection st))).
    + now apply extractLine_periodOk.
    + apply IH. now apply extractLine_periodOk.
Qed.

(** X3. Whatever the document, a reply of the product stage is
    "Warranty period: ", a non-empty run of decimal digits, " Months"
    written with a capital also when the document has it otherwise, and
    then the optional parts. *)
Theorem product_reply_has_number message lines r :
  productStage message lines = Some r ->
  exists ds rest,
    r = lit "Warranty period: " ++ ds ++ lit " Months" ++ rest /\
    ds <> [] /\ Forall (fun c => isDigit c = true) ds.
Proof.
  unfold productStage.
  destruct (findProduct productKeywords message) as [p|]; [|discriminate].
  intros H.
  pose proof (productLoop_periodOk p lines scan0 I) as Hok.
  destruct (warrantyPeriod (productLoop p scan0 lines)) as [w|] eqn:E.
  - rewrite (composeReply_shape _ _ E) in H. inversion H.
    destruct Hok as [ds [-> [Hne Hd]]].
    exists ds, (serviceText (warrantyService (productLoop p scan0 lines))
                ++ servicesText (repairServices (productLoop p scan0 lines))).
    rewrite <- !app_assoc. auto.
  - unfold composeReply in H. rewrite E in H. discriminate.
Qed.

Lemma product_reply_has_number_witness :
  exists ds rest,
    lit "Warranty period: 6 Months"
      = lit "Warranty period: " ++ ds ++ lit " Months" ++ rest /\
    ds <> [] /\ Forall (fun c => isDigit c = true) ds.
Proof.
  apply (product_reply_has_number (lit "watch strap")
           [lit "WATCH STRAP:"; lit "- warranty PERIOD:6months"]).
  reflexivity.
Defined.

(** *** The pairs that are parsed *)

Lemma lowerChar_idem c : lowerChar (lowerChar c) = lowerChar c.
Proof. destruct c as [[] [] [] [] [] [] [] []]; reflexivity. Qed.

Lemma toLowerCase_idem s : toLowerCase (toLowerCase s) = toLowerCase s.
Proof.
  unfold toLowerCase. rewrite map_map. apply map_ext. apply lowerChar_idem.
Qed.

Definition goodPair (qa : QA) : Prop :=
  question qa <> [] /\ answer qa <> [] /\
  toLowerCase (question qa) = question qa.

Definition goodParse (st : QAParse) : Prop :=
  toLowerCase (currentQ st) = currentQ st /\ Forall goodPair (qaPairs st).

Lemma pushPair_good st : goodParse st -> Forall goodPair (pushPair st).
Proof.
  intros [Hq Hp]. unfold pushPair.
  destruct (currentQ st) as [|c q] eqn:Eq; cbn [truthy andb]; [exact Hp|].
  destruct (currentA st) as [|d a] eqn:Ea; cbn [truthy]; [exact Hp|].
  apply Forall_app. split; [exact Hp|]. repeat constructor; simpl;
    try discriminate. exact Hq.
Qed.

Lemma parseLine_good st raw : goodParse st -> goodParse (parseLine st raw).
Proof.
  intros H. pose proof (pushPair_good st H) as Hpush.
  destruct H as [Hq Hp]. unfold parseLine.
  destruct (startsWith (trim raw) (lit "Q:") ||
            startsWith (trim raw) (lit "QUESTIONS ABOUT")).
  - split; [apply toLowerCase_idem | exact Hpush].
  - destruct (inQA st && startsWith (trim raw) (lit "A:"));
      [split; assumption|].
    destruct (inQA st && truthy (currentA st) && (0 <? length (trim raw)));
      [split; assumption|].
    destruct (inQA st && (length (trim raw) =? 0) && truthy (currentA st));
      split; assumption.
Qed.

Lemma fold_parse_good lines : forall st,
  goodParse st -> goodParse (fold_left parseLine lines st).
Proof.
  induction lines as [|raw lines IH]; intros st H; [exact H|].
  simpl. apply IH. now apply parseLine_good.
Qed.

(** X4. Every pair parsed from a document has a question that is not empty and
    is in lower case, and an answer that is not empty. *)
Theorem parsed_pairs_are_complete lines qa :
  In qa (parseQA lines) ->
  question qa <> [] /\ answer qa <> [] /\
  toLowerCase (question qa) = question qa.
Proof.
  intros H. unfold parseQA in H.
  assert (G : goodParse (fold_left parseLine lines parse0)).
  { apply fold_parse_good. split; [reflexivity | constructor]. }
  pose proof (pushPair_good _ G) as F.
  rewrite Forall_forall in F. exact (F qa H).
Qed.

Lemma parsed_pairs_are_complete_witness :
  lit "is it there?" <> [] /\ lit "Yes." <> [] /\
  toLowerCase (lit "is it there?") = lit "is it there?".
Proof.
  apply (parsed_pairs_are_complete
           [lit "Q: Is it THERE?"; lit "A: Yes."; lit "Q:"; lit "A: lost"]
           (mkQA (lit "is it there?") (lit "Yes."))).
  vm_compute. left. reflexivity.
Defined.

(** X5. An answer of the question and answer stage is the answer of a pair of
    the document, verbatim; that pair scores above 15 and no pair of the
    document scores higher. *)
Theorem qa_answer_is_stored message lines a :
  qaStage message lines = Some a ->
  exists qa,
    In qa (parseQA lines) /\ answer qa = a /\
    (15 < score message qa)%Q /\
    forall other, In other (parseQA lines) ->
      (score message other <= score message qa)%Q.
Proof.
  unfold qaStage.
  destruct (pickBest_picked message (parseQA lines)) as [_ [Hmax Hbest]].
  destruct (pickBest message (parseQA lines)) as [[best|] bestScore];
    [|discriminate].
  simpl in Hmax, Hbest. destruct Hbest as [Hin Hs]. subst bestScore.
  destruct (Qgtb (score message best) 15) eqn:E; [|discriminate].
  intros H. inversion H. exists best. repeat split; auto.
  now apply Qgtb_lt.
Qed.

Lemma qa_answer_is_stored_witness :
  exists qa,
    In qa (parseQA (splitChar nl faqDoc)) /\
    answer qa = lit "Yes, within one hour." /\
    (15 < score (lit "cancel my order") qa)%Q /\
    forall other, In other (parseQA (splitChar nl faqDoc)) ->
      (score (lit "cancel my order") other
       <= score (lit "cancel my order") qa)%Q.
Proof.
  apply (qa_answer_is_stored (lit "cancel my order") (splitChar nl faqDoc)).
  reflexivity.
Defined.

(** What the loop holds after the pairs [seen]: the pair kept is the first
    one of its score. *)
Definition pickedFirst (message : str) (seen : list QA)
  (acc : option QA * Q) : Prop :=
  match fst acc with
  | Some best =>
      snd acc = score message best /\
      exists before after,
        seen = before ++ best :: after /\
        (forall qa, In qa before ->
           (score message qa < score message best)%Q) /\
        (forall qa, In qa after ->
           (score message qa <= score message best)%Q)
  | None => snd acc = 0%Q
  end.

Lemma pickStep_pickedFirst message seen acc qa :
  picked message seen acc -> pickedFirst message seen acc ->
  pickedFirst message (seen ++ [qa]) (pickStep message acc qa).
Proof.
  intros [_ [Hmax _]] Hf. unfold pickStep.
  destruct (Qgtb (score message qa) (snd acc)) eqn:E.
  - apply Qgtb_lt in E. unfold pickedFirst. simpl.
    split; [reflexivity|]. exists seen, []. split; [reflexivity|].
    split; [|intros ? []].
    intros qa' Hin. eapply Qle_lt_trans; [apply Hmax, Hin | exact E].
  - apply Qgtb_le in E. unfold pickedFirst in *.
    destruct (fst acc) as [best|]; [|exact Hf].
    destruct Hf as [Hs [before [after [Hseen [Hb Ha]]]]].
    split; [exact Hs|]. exists before, (after ++ [qa]).
    split; [rewrite Hseen, <- app_assoc; reflexivity|].
    split; [exact Hb|].
    intros qa' Hin. apply in_app_or in Hin.
    destruct Hin as [Hin|[->|[]]]; [now apply Ha|].
    now rewrite <- Hs.
Qed.

Lemma fold_pickedFirst message pairs : forall seen acc,
  picked message seen acc -> pickedFirst message seen acc ->
  pickedFirst message (seen ++ pairs)
    (fold_left (pickStep message) pairs acc).
Proof.
  induction pairs as [|qa pairs IH]; intros seen acc Hp Hf; simpl.
  - now rewrite app_nil_r.
  - replace (seen ++ qa :: pairs) with ((seen ++ [qa]) ++ pairs)
      by (rewrite <- app_assoc; reflexivity).
    apply IH; [now apply pickStep_picked | now apply pickStep_pickedFirst].
Qed.

(** X6. Among pairs of equal score the loop keeps the earliest: every pair
    before the one selected scores strictly less, every pair after it scores
    at most as much. *)
Theorem selection_keeps_the_earliest message pairs best :
  fst (pickBest message pairs) = Some best ->
  exists before after,
    pairs = before ++ best :: after /\
    (forall qa, In qa before -> (score message qa < score message best)%Q) /\
    (forall qa, In qa after -> (score message qa <= score message best)%Q).
Proof.
  intros H.
  assert (F : pickedFirst message pairs (pickBest message pairs)).
  { unfold pickBest.
    apply (fold_pickedFirst message pairs [] (None, 0%Q)).
    - repeat split; simpl; [apply Qle_refl | intros ? []].
    - reflexivity. }
  unfold pickedFirst in F. rewrite H in F.
  destruct F as [_ F]. exact F.
Qed.

Lemma selection_keeps_the_earliest_witness :
  exists before after,
    [ mkQA (lit "track my order?") (lit "first answer");
      mkQA (lit "track my order") (lit "second answer") ]
    = before ++ mkQA (lit "track my order?") (lit "first answer") :: after /\
    (forall qa, In qa before ->
       (score (lit "track my order") qa
        < score (lit "track my order")
            (mkQA (lit "track my order?") (lit "first answer")))%Q) /\
    (forall qa, In qa after ->
       (score (lit "track my order") qa
        <= score (lit "track my order")
             (mkQA (lit "track my order?") (lit "first answer")))%Q).
Proof.
  apply (selection_keeps_the_earliest (lit "track my order")). reflexivity.
Defined.

(** *** The range of the score *)

(** The nearest integer of a quotient between two integers is between
    them. *)
Lemma roundHalfEven_between P D a b :
  (0 < D)%Z -> (a * D <= P)%Z -> (P <= b * D)%Z ->
  (a <= Float64.roundHalfEven P D <= b)%Z.
Proof.
  intros HD Ha Hb. unfold Float64.roundHalfEven.
  pose proof (Z.div_mod P D ltac:(lia)) as E.
  pose proof (Z.mod_pos_bound P D HD) as R.
  assert (Hf : (a <= P / D <= b)%Z).
  { split; [apply Z.div_le_lower_bound; lia|].
    apply Z.div_le_upper_bound; lia. }
  destruct (Z.compare_spec (2 * (P mod D)) D) as [C|C|C].
  - destruct (Z.even (P / D)); nia.
  - lia.
  - nia.
Qed.

(** A quotient of at most 2^52 has an exponent of at most 52. *)
Lemma exponentOf_le n d K :
  (0 < n)%Z -> (n <= K * Zpos d)%Z -> (K <= 2 ^ 52)%Z ->
  (Float64.exponentOf n d <= 52)%Z.
Proof.
  intros Hn HK H52. unfold Float64.exponentOf.
  assert (K1 : (0 < K)%Z) by nia.
  assert (L : (Z.log2 n - Z.log2 (Zpos d) <= 53)%Z).
  { pose proof (Z.log2_le_mono n (K * Zpos d) HK) as L1.
    pose proof (Z.log2_mul_above K (Zpos d) ltac:(lia) ltac:(lia)) as L2.
    pose proof (Z.log2_le_mono K (2 ^ 52) H52) as L3.
    rewrite Z.log2_pow2 in L3; lia. }
  set (e0 := (Z.log2 n - Z.log2 (Zpos d))%Z) in *.
  destruct (0 <=? e0)%Z eqn:S0.
  - destruct (n <? Zpos d * 2 ^ e0)%Z eqn:B; [lia|].
    apply Z.ltb_ge in B. apply Z.leb_le in S0.
    destruct (Z_le_gt_dec e0 52) as [|G]; [assumption|exfalso].
    assert (2 ^ 53 <= 2 ^ e0)%Z by (apply Z.pow_le_mono_r; lia).
    assert (2 ^ 52 < 2 ^ 53)%Z by (apply Z.pow_lt_mono_r; lia).
    nia.
  - apply Z.leb_gt in S0.
    destruct (n * 2 ^ (- e0) <? Zpos d)%Z; lia.
Qed.

Definition within (a b : Z) (x : Q) : Prop :=
  (inject_Z a <= x)%Q /\ (x <= inject_Z b)%Q.

Lemma scaled_within a b m u :
  (u <= 0)%Z -> (a * 2 ^ (- u) <= m <= b * 2 ^ (- u))%Z ->
  within a b (Float64.scaled m u).
Proof.
  intros Hu Hm. unfold Float64.scaled.
  destruct (0 <=? u)%Z eqn:S0.
  - apply Z.leb_le in S0. assert (u = 0%Z) by lia. subst u.
    change (2 ^ (- 0))%Z with 1%Z in Hm. change (2 ^ 0)%Z with 1%Z.
    unfold within, Qle. simpl. lia.
  - assert (W : (0 < 2 ^ (- u))%Z) by (apply Z.pow_pos_nonneg; lia).
    unfold within. rewrite Qred_correct. unfold Qle. simpl.
    rewrite Z2Pos.id by exact W. lia.
Qed.

Lemma roundReduced_within a b q :
  (- 2 ^ 52 <= a)%Z -> (b <= 2 ^ 52)%Z ->
  within a b q -> within a b (Float64.roundReduced q).
Proof.
  intros Ha Hb [Hl Hu]. unfold Float64.roundReduced.
  destruct q as [n d]. unfold Qle in Hl, Hu. simpl in Hl, Hu.
  cbn [Qnum Qden].
  destruct (Z.abs n =? 0)%Z eqn:N0.
  - apply Z.eqb_eq in N0. assert (n = 0%Z) by lia. subst n.
    unfold within, Qle. simpl. lia.
  - apply Z.eqb_neq in N0.
    set (e := Float64.exponentOf (Z.abs n) d).
    assert (He : (e <= 52)%Z).
    { destruct (Z_le_gt_dec 0 n).
      - apply (exponentOf_le (Z.abs n) d b); lia.
      - apply (exponentOf_le (Z.abs n) d (- a)); lia. }
    set (u := Z.max (e - 52) (-1074)).
    assert (Hu0 : (u <= 0)%Z) by lia.
    assert (W : (0 < 2 ^ (- u))%Z) by (apply Z.pow_pos_nonneg; lia).
    apply scaled_within; [exact Hu0|].
    destruct (0 <=? u)%Z eqn:S0.
    + apply Z.leb_le in S0. assert (U : u = 0%Z) by lia. rewrite U in *.
      change (2 ^ (- 0))%Z with 1%Z. change (2 ^ 0)%Z with 1%Z.
      destruct (Z_le_gt_dec 0 n).
      * pose proof (roundHalfEven_between (Z.abs n) (Zpos d * 1) a b).
        replace (Z.sgn n) with 1%Z by lia. lia.
      * pose proof (roundHalfEven_between (Z.abs n) (Zpos d * 1) (- b) (- a)).
        replace (Z.sgn n) with (-1)%Z by lia. lia.
    + destruct (Z_le_gt_dec 0 n).
      * pose proof (roundHalfEven_between (Z.abs n * 2 ^ (- u)) (Zpos d)
                      (a * 2 ^ (- u)) (b * 2 ^ (- u))).
        replace (Z.sgn n) with 1%Z by lia. nia.
      * pose proof (roundHalfEven_between (Z.abs n * 2 ^ (- u)) (Zpos d)
                      (- b * 2 ^ (- u)) (- a * 2 ^ (- u))).
        replace (Z.sgn n) with (-1)%Z by lia. nia.
Qed.

(** Rounding keeps a number between two integers of at most 2^52. *)
Lemma round_within a b q :
  (- 2 ^ 52 <= a)%Z -> (b <= 2 ^ 52)%Z ->
  within a b q -> within a b (Float64.round q).
Proof.
  intros Ha Hb [Hl Hu]. apply roundReduced_within; [exact Ha|exact Hb|].
  split; rewrite Qred_correct; assumption.
Qed.

Lemma add_within a b c d x y :
  (- 2 ^ 52 <= a + c)%Z -> (b + d <= 2 ^ 52)%Z ->
  within a b x -> within c d y -> within (a + c) (b + d) (Float64.add x y).
Proof.
  intros Ha Hb [X1 X2] [Y1 Y2]. apply round_within; [exact Ha|exact Hb|].
  split; rewrite inject_Z_plus; lra.
Qed.

Lemma share_within m n :
  m <= n -> 0 < n ->
  within 0 50
    (Float64.mul (Float64.div (Float64.ofNat m) (Float64.ofNat n)) 50).
Proof.
  intros Hmn Hn.
  assert (D : within 0 1 (Float64.div (Float64.ofNat m) (Float64.ofNat n))).
  { apply round_within; [now vm_compute|now vm_compute|].
    assert (N0 : (0 < Float64.ofNat n)%Q)
      by (unfold Float64.ofNat, Qlt; simpl; lia).
    split.
    - apply Qle_shift_div_l; [exact N0|].
      change (inject_Z 0) with 0%Q. rewrite Qmult_0_l.
      change 0%Q with (inject_Z 0). unfold Float64.ofNat.
      rewrite <- Zle_Qle. lia.
    - apply Qle_shift_div_r; [exact N0|].
      change (inject_Z 1) with 1%Q. rewrite Qmult_1_l.
      unfold Float64.ofNat. rewrite <- Zle_Qle. lia. }
  destruct D as [D0 D1]. apply round_within; [now vm_compute|now vm_compute|].
  unfold within.
  change (inject_Z 0) with 0%Q in *. change (inject_Z 1) with 1%Q in *.
  change (inject_Z 50) with 50%Q. split; lra.
Qed.

Lemma sub_within a b c x :
  (- 2 ^ 52 <= a - c)%Z -> (b - c <= 2 ^ 52)%Z ->
  within a b x -> within (a - c) (b - c) (Float64.sub x (inject_Z c)).
Proof.
  intros Ha Hb [X1 X2]. apply round_within; [exact Ha|exact Hb|].
  unfold within, Z.sub. rewrite !inject_Z_plus, !inject_Z_opp. split; lra.
Qed.

Lemma within_wider a b a' b' x :
  (a' <= a)%Z -> (b <= b')%Z -> within a b x -> within a' b' x.
Proof.
  intros Ha Hb [X1 X2]. rewrite Zle_Qle in Ha, Hb. split; lra.
Qed.

Lemma addBonus_within message q a b s w v :
  (0 <= v)%Z -> (- 2 ^ 52 <= a)%Z -> (b + v <= 2 ^ 52)%Z ->
  within a b s -> within a (b + v) (addBonus message q s (w, inject_Z v)).
Proof.
  intros Hv Ha Hb H. unfold addBonus. cbn [fst snd].
  destruct (includes message w && includes q w).
  - apply (within_wider (a + 0) (b + v)); [lia|lia|].
    apply add_within; [lia|exact Hb|exact H|].
    split; rewrite <- Zle_Qle; lia.
  - apply (within_wider a b); [lia|lia|exact H].
Qed.

(** X7. The score of a pair lies between -10 and 340: 100 for the phrase, at
    most 50 for the words, at most 190 of bonuses, at most 10 taken off;
    the rounding of each sum takes none of them past these integers. *)
Theorem score_range message qa :
  (-10 <= score message qa)%Q /\ (score message qa <= 340)%Q.
Proof.
  unfold score. set (q := toLowerCase (question qa)).
  assert (S0 : within 0 100 (addPhrase message q 0%Q)).
  { unfold addPhrase.
    destruct (phraseHit message q); vm_compute; split; discriminate. }
  assert (S1 : within 0 150
                 (addWordShare message q (addPhrase message q 0%Q))).
  { unfold addWordShare.
    destruct (0 <? length (importantWords q)) eqn:L.
    - apply (add_within 0 100 0 50);
        [now vm_compute|now vm_compute|exact S0|].
      unfold wordShare.
      apply share_within; [apply filter_length_le | now apply Nat.ltb_lt].
    - apply (within_wider 0 100); [lia|lia|exact S0]. }
  assert (S2 : within 0 340
                 (addBonuses message q
                    (addWordShare message q (addPhrase message q 0%Q)))).
  { unfold addBonuses, bonuses. cbn [fold_left].
    apply (addBonus_within message q 0 310 _ _ 30);
      [lia|now vm_compute|now vm_compute|].
    apply (addBonus_within message q 0 290 _ _ 20);
      [lia|now vm_compute|now vm_compute|].
    apply (addBonus_within message q 0 270 _ _ 20);
      [lia|now vm_compute|now vm_compute|].
    apply (addBonus_within message q 0 240 _ _ 30);
      [lia|now vm_compute|now vm_compute|].
    apply (addBonus_within message q 0 210 _ _ 30);
      [lia|now vm_compute|now vm_compute|].
    apply (addBonus_within message q 0 190 _ _ 20);
      [lia|now vm_compute|now vm_compute|].
    apply (addBonus_within message q 0 170 _ _ 20);
      [lia|now vm_compute|now vm_compute|].
    apply (addBonus_within message q 0 150 _ _ 20);
      [lia|now vm_compute|now vm_compute|].
    exact S1. }
  apply (within_wider (0 - 10) 340); [lia|lia|].
  unfold subPenalty.
  destruct (includes q (lit "track") && negb (includes message (lit "track"))
            && negb (includes message (lit "order"))).
  - apply (within_wider (0 - 10) (340 - 10)); [lia|lia|].
    apply (sub_within 0 340 10); [now vm_compute|now vm_compute|exact S2].
  - apply (within_wider 0 340); [lia|lia|exact S2].
Qed.

(** *** Queries without a word of four characters *)

Lemma sectionLine_no_words st line :
  bestMatchCount st = 0 ->
  bestMatchCount (sectionLine [] st line) = 0.
Proof.
  intros H. unfold sectionLine.
  destruct (isSectionStart line).
  - destruct (truthy (currentSection st) && (bestMatchCount st <? 3));
      cbn [bestMatchCount]; [|exact H].
    unfold countIn. cbn [filter length].
    destruct (bestMatchCount st <? 0); [reflexivity | exact H].
  - destruct (0 <? length (trim line)); cbn [bestMatchCount]; exact H.
Qed.

Lemma sectionScan_no_words lines : forall st,
  bestMatchCount st = 0 ->
  bestMatchCount (sectionScan [] lines st) = 0.
Proof.
  induction lines as [|line lines IH]; intros st H; [exact H|].
  unfold sectionScan in *. simpl. apply IH.
  now apply sectionLine_no_words.
Qed.

Lemma fold_paraStep_no_words paras : forall best,
  fold_left (paraStep []) paras best = best.
Proof.
  induction paras as [|para paras IH]; intros best; [reflexivity|].
  simpl. rewrite <- (IH best) at 2. f_equal.
Qed.

(** X8. A query in which no word has more than three characters gets nothing
    from the section stage and nothing from the paragraph stage, whatever
    the document. *)
Theorem short_words_get_no_fallback message lines dataContent :
  wordsOver3 message = [] ->
  sectionStage message lines = None /\
  paragraphStage message dataContent = None.
Proof.
  intros H. split.
  - unfold sectionStage. rewrite H.
    rewrite (sectionScan_no_words lines sections0 eq_refl).
    now rewrite andb_false_r.
  - unfold paragraphStage. rewrite H, fold_paraStep_no_words. reflexivity.
Qed.

Lemma short_words_get_no_fallback_witness :
  sectionStage (lit "is it ok") [lit "IT:"; lit "is it ok"; lit "END:"] = None /\
  paragraphStage (lit "is it ok") (lit "is it ok") = None.
Proof.
  apply (short_words_get_no_fallback (lit "is it ok")). reflexivity.
Defined.

(** *** Replies that are empty *)

Lemma productStage_nonempty message lines r :
  productStage message lines = Some r -> r <> [].
Proof.
  unfold productStage.
  destruct (findProduct productKeywords message) as [p|]; [|discriminate].
  unfold composeReply.
  destruct (warrantyPeriod (productLoop p scan0 lines)); [|discriminate].
  destruct (warrantyService _) as [[|c w]|];
    destruct (repairServices _); intros H; inversion H; discriminate.
Qed.

Lemma qaStage_nonempty message lines a :
  qaStage message lines = Some a -> a <> [].
Proof.
  unfold qaStage.
  destruct (pickBest_picked message (parseQA lines)) as [_ [_ Hbest]].
  destruct (pickBest message (parseQA lines)) as [[best|] bestScore];
    [|discriminate].
  simpl in Hbest. destruct Hbest as [Hin _].
  destruct (Qgtb bestScore 15); [|discriminate].
  intros H. inversion H. subst a.
  assert (G : goodParse (fold_left parseLine lines parse0))
    by (apply fold_parse_good; split; [reflexivity | constructor]).
  pose proof (pushPair_good _ G) as F. rewrite Forall_forall in F.
  exact (proj1 (proj2 (F best Hin))).
Qed.

Lemma firstSentences_nonempty minLen count text :
  firstSentences minLen count text <> [].
Proof.
  unfold firstSentences. intros H. apply app_eq_nil in H.
  destruct H as [_ H]. discriminate.
Qed.

(** X9. An empty reply of [getAnswerFromData] can only be the one of the order
    history: the replies of the four stages before it are never empty. *)
Theorem empty_reply_is_order_history userMessage dataContent :
  getAnswerFromData userMessage dataContent = Some [] ->
  historyStage dataContent = Some [].
Proof.
  unfold getAnswerFromData.
  destruct (negb (truthy dataContent)); [discriminate|]. cbv zeta.
  unfold orElse.
  destruct (productStage _ _) as [r|] eqn:P.
  { intros H. inversion H. subst r.
    now apply productStage_nonempty in P. }
  destruct (qaStage _ _) as [a|] eqn:Q.
  { intros H. inversion H. subst a. now apply qaStage_nonempty in Q. }
  unfold sectionStage. destruct (truthy _ && _).
  { intros H. inversion H as [E]. now apply firstSentences_nonempty in E. }
  unfold paragraphStage. destruct (truthy _ && _).
  { intros H. inversion H as [E]. now apply firstSentences_nonempty in E. }
  auto.
Qed.

Lemma empty_reply_is_order_history_witness :
  historyStage (lit "ORDER HISTORY:") = Some [].
Proof.
  apply (empty_reply_is_order_history (lit "ok")). reflexivity.
Defined.

(** *** The reply of the order history *)

Lemma part_In t s c : part t s -> In c t -> In c s.
Proof.
  intros [a [b E]] H. subst s. apply in_or_app. right.
  apply in_or_app. now left.
Qed.

Lemma splitChar_pieces sep s piece :
  In piece (splitChar sep s) -> ~ In sep piece.
Proof.
  revert piece. induction s as [|c s IH]; intros piece; simpl.
  - intros [<-|[]] [].
  - destruct (chEq c sep) eqn:E.
    + intros [<-|H]; [intros [] | now apply IH].
    + destruct (splitChar sep s) as [|h t] eqn:Es; simpl.
      * intros [<-|[]] [->|[]]. unfold chEq in E.
        now rewrite Ascii.eqb_refl in E.
      * intros [<-|H].
        -- intros [->|Hin].
           ++ unfold chEq in E. now rewrite Ascii.eqb_refl in E.
           ++ apply (IH h); [now left | exact Hin].
        -- apply IH. now right.
Qed.

Lemma join_chars sep l c :
  In c (join sep l) -> In c sep \/ exists piece, In piece l /\ In c piece.
Proof.
  induction l as [|x l IH]; [intros []|].
  destruct l as [|y l].
  - simpl. intros H. right. exists x. split; [now left | exact H].
  - change (join sep (x :: y :: l)) with (x ++ sep ++ join sep (y :: l)).
    intros H. apply in_app_or in H. destruct H as [H|H].
    + right. exists x. split; [now left | exact H].
    + apply in_app_or in H. destruct H as [H|H]; [now left|].
      destruct (IH H) as [Hs|[piece [Hp Hc]]]; [now left|].
      right. exists piece. split; [now right | exact Hc].
Qed.

Lemma firstn_In {A} n (l : list A) x : In x (firstn n l) -> In x l.
Proof.
  revert l. induction n as [|n IH]; intros [|y l]; simpl; try tauto.
  intros [->|H]; [now left | right; now apply IH].
Qed.

(** X10. The reply of the order history stage is a single line: it holds no line
    feed. *)
Theorem order_history_is_one_line dataContent r :
  historyStage dataContent = Some r -> ~ In nl r.
Proof.
  unfold historyStage.
  destruct (includes dataContent (lit "ORDER HISTORY")); [|discriminate].
  destruct (historyMatch dataContent) as [m|]; [|discriminate].
  intros [= <-] Hin.
  apply (part_In _ _ _ (part_trim _)) in Hin.
  apply join_chars in Hin. destruct Hin as [Hs|[piece [Hp Hc]]].
  - simpl in Hs. destruct Hs as [Hs|[]]. discriminate Hs.
  - exact (splitChar_pieces _ _ _ (firstn_In 3 _ _ Hp) Hc).
Qed.

Lemma order_history_is_one_line_witness :
  ~ In nl (lit "2024-01-05 order 17 2024-02-11 order 23").
Proof.
  apply (order_history_is_one_line
           (lit "ORDER HISTORY:" ++ [nl] ++ lit "2024-01-05 order 17" ++ [nl]
            ++ lit "2024-02-11 order 23" ++ [nl] ++ lit "RETURNS:")).
  reflexivity.
Defined.

End ExtractFacts.

(* ================================================================== *)
(** ** The pairs the fetcher writes and the parser reads *)
(* ================================================================== *)

Module RoundTrip.

Import QAFacts ExtractFacts.

(** A text that is not empty and neither starts nor ends with a blank. *)
Definition tidy (s : str) : bool :=
  match s with c :: _ => negb (isSpace c) | [] => false end &&
  match rev s with c :: _ => negb (isSpace c) | [] => false end.

Lemma dropWhile_head f s c r : dropWhile f s = c :: r -> f c = false.
Proof.
  induction s as [|x s IH]; simpl; [discriminate|].
  destruct (f x) eqn:E; [exact IH|]. intros H. inversion H. now subst.
Qed.

Lemma dropWhile_id f c s : f c = false -> dropWhile f (c :: s) = c :: s.
Proof. intros H. simpl. now rewrite H. Qed.

Lemma trim_tidy s : tidy s = true -> trim s = s.
Proof.
  unfold tidy, trim, trimStart, trimEnd. intros H.
  apply andb_true_iff in H. destruct H as [H1 H2].
  destruct s as [|c s]; [discriminate|].
  apply negb_true_iff in H1. rewrite (dropWhile_id _ _ _ H1).
  destruct (rev (c :: s)) as [|d r] eqn:E; [discriminate|].
  apply negb_true_iff in H2. rewrite (dropWhile_id _ _ _ H2).
  rewrite <- E. apply rev_involutive.
Qed.

Lemma tidy_trim s : trim s <> [] -> tidy (trim s) = true.
Proof.
  unfold trim, trimStart, trimEnd, tidy. intros Hne.
  rewrite rev_involutive.
  set (y := dropWhile isSpace s) in *.
  destruct (dropWhile isSpace (rev y)) as [|d z] eqn:Ez;
    [exfalso; now apply Hne|].
  pose proof (dropWhile_head _ _ _ _ Ez) as Hd.
  rewrite Hd, andb_true_r.
  pose proof (take_drop isSpace (rev y)) as E. rewrite Ez in E.
  apply (f_equal (@rev ascii)) in E.
  rewrite rev_involutive, rev_app_distr in E.
  destruct (rev (d :: z)) as [|e w] eqn:Er.
  { apply (f_equal (@length ascii)) in Er. rewrite length_rev in Er.
    discriminate. }
  simpl in E. unfold y in E.
  now rewrite (dropWhile_head isSpace s e _ E).
Qed.

Lemma tidy_prefixed c p s :
  isSpace c = false -> tidy s = true -> tidy ((c :: p) ++ s) = true.
Proof.
  unfold tidy. intros Hc H. cbn [app]. rewrite Hc. cbn [negb andb].
  apply andb_true_iff in H. destruct H as [_ H].
  change (c :: p ++ s) with ((c :: p) ++ s). rewrite rev_app_distr.
  destruct (rev s) as [|d r]; [discriminate|]. exact H.
Qed.

Lemma tidy_nonempty s : tidy s = true -> s <> [].
Proof. destruct s; [discriminate | discriminate]. Qed.

Lemma tidy_head s : tidy s = true -> dropWhile isSpace s = s.
Proof.
  unfold tidy. destruct s as [|c s]; [discriminate|]. intros H.
  apply andb_true_iff in H. destruct H as [H _].
  apply negb_true_iff in H. now apply dropWhile_id.
Qed.

(** The three lines written for one pair. *)
Definition pairLines (qa : str * str) : list str :=
  [lit "Q: " ++ fst qa; lit "A: " ++ snd qa; []].

Definition stored (qa : str * str) : QA :=
  mkQA (toLowerCase (fst qa)) (snd qa).

(** A line that opens no question. *)
Definition opensNoQuestion (raw : str) : bool :=
  negb (startsWith (trim raw) (lit "Q:") ||
        startsWith (trim raw) (lit "QUESTIONS ABOUT")).

Lemma parse_question st q :
  tidy q = true ->
  parseLine st (lit "Q: " ++ q)
  = mkParse true (toLowerCase q) [] (pushPair st).
Proof.
  intros H. unfold parseLine.
  assert (T : trim (lit "Q: " ++ q) = lit "Q: " ++ q).
  { apply trim_tidy. now apply (tidy_prefixed "Q"%char (lit ": ")). }
  rewrite T.
  change (lit "Q: " ++ q) with ("Q"%char :: ":"%char :: " "%char :: q).
  cbn [startsWith lit list_ascii_of_string chEq Ascii.eqb Bool.eqb andb orb].
  unfold stripLabel.
  cbn [stripPrefix lit list_ascii_of_string chEq Ascii.eqb Bool.eqb].
  change (dropWhile isSpace (" "%char :: q)) with (dropWhile isSpace q).
  now rewrite (tidy_head q H).
Qed.

Lemma parse_answer st a :
  tidy a = true -> inQA st = true ->
  parseLine st (lit "A: " ++ a) = mkParse true (currentQ st) a (qaPairs st).
Proof.
  intros H Hin. unfold parseLine.
  assert (T : trim (lit "A: " ++ a) = lit "A: " ++ a).
  { apply trim_tidy. now apply (tidy_prefixed "A"%char (lit ": ")). }
  rewrite T, Hin.
  change (lit "A: " ++ a) with ("A"%char :: ":"%char :: " "%char :: a).
  cbn [startsWith lit list_ascii_of_string chEq Ascii.eqb Bool.eqb andb orb].
  unfold stripLabel.
  cbn [stripPrefix lit list_ascii_of_string chEq Ascii.eqb Bool.eqb].
  change (dropWhile isSpace (" "%char :: a)) with (dropWhile isSpace a).
  now rewrite (tidy_head a H).
Qed.

Lemma parse_blank st :
  inQA st = true -> truthy (currentA st) = true ->
  parseLine st [] = mkParse false (currentQ st) (currentA st) (qaPairs st).
Proof. intros Hin Ha. unfold parseLine. simpl. now rewrite Hin, Ha. Qed.

Lemma parse_other st raw :
  inQA st = false -> opensNoQuestion raw = true -> parseLine st raw = st.
Proof.
  intros Hin H. unfold opensNoQuestion in H. apply negb_true_iff in H.
  unfold parseLine. rewrite H, Hin. reflexivity.
Qed.

Lemma fold_other lines : forall st,
  inQA st = false ->
  Forall (fun raw => opensNoQuestion raw = true) lines ->
  fold_left parseLine lines st = st.
Proof.
  induction lines as [|raw lines IH]; intros st Hin H; [reflexivity|].
  inversion H; subst. simpl. rewrite parse_other by assumption.
  now apply IH.
Qed.

Lemma truthy_tidy s : tidy s = true -> truthy s = true.
Proof. destruct s; [discriminate | reflexivity]. Qed.

Lemma parse_pair st qa :
  tidy (fst qa) = true -> tidy (snd qa) = true ->
  fold_left parseLine (pairLines qa) st
  = mkParse false (toLowerCase (fst qa)) (snd qa) (pushPair st).
Proof.
  intros Hq Ha. unfold pairLines. cbn [fold_left].
  rewrite parse_question by assumption.
  rewrite parse_answer by (auto; reflexivity).
  rewrite parse_blank; [reflexivity | reflexivity | now apply truthy_tidy].
Qed.

Definition tidyPair (qa : str * str) : Prop :=
  tidy (fst qa) = true /\ tidy (snd qa) = true.

Lemma fold_pairs pairs : forall st,
  inQA st = false ->
  Forall tidyPair pairs ->
  let st' := fold_left parseLine (flat_map pairLines pairs) st in
  inQA st' = false /\ pushPair st' = pushPair st ++ map stored pairs.
Proof.
  induction pairs as [|qa pairs IH]; intros st Hin H.
  - simpl. split; [exact Hin | now rewrite app_nil_r].
  - inversion H as [|? ? [Hq Ha] Hrest]; subst.
    cbn [flat_map]. cbv zeta. rewrite fold_left_app, parse_pair by assumption.
    destruct (IH (mkParse false (toLowerCase (fst qa)) (snd qa) (pushPair st))
                eq_refl Hrest) as [Hi Hp].
    split; [exact Hi|]. rewrite Hp.
    unfold pushPair at 1. cbn [currentQ currentA qaPairs].
    assert (Tq : truthy (toLowerCase (fst qa)) = true).
    { destruct (fst qa); [discriminate Hq | reflexivity]. }
    rewrite Tq, (truthy_tidy _ Ha). cbn [andb map].
    rewrite <- app_assoc. reflexivity.
Qed.

Lemma read_back pre pairs post :
  Forall (fun raw => opensNoQuestion raw = true) pre ->
  Forall tidyPair pairs ->
  Forall (fun raw => opensNoQuestion raw = true) post ->
  parseQA (pre ++ flat_map pairLines pairs ++ post) = map stored pairs.
Proof.
  intros Hpre Hp Hpost. unfold parseQA.
  rewrite !fold_left_app.
  rewrite (fold_other pre parse0 eq_refl Hpre).
  destruct (fold_pairs pairs parse0 eq_refl Hp) as [Hi Hpush].
  rewrite fold_other by assumption.
  rewrite Hpush. reflexivity.
Qed.

(** X11. Reading back what was written: lines "Q: question", "A: answer" and a
    blank line for each pair, between lines that open no question, are
    parsed into exactly these pairs, in their order, the question in lower
    case and the answer as written; this for questions and answers that are
    not empty and neither start nor end with a blank. *)
Theorem written_pairs_are_read_back pre pairs post :
  Forall (fun raw => opensNoQuestion raw = true) pre ->
  Forall tidyPair pairs ->
  Forall (fun raw => opensNoQuestion raw = true) post ->
  parseQA (pre ++ flat_map pairLines pairs ++ post) = map stored pairs.
Proof. apply read_back. Qed.

Lemma written_pairs_are_read_back_witness :
  parseQA ([lit "=== WARRANTY FAQs ==="; []]
           ++ flat_map pairLines
                [ (lit "What is covered?", lit "Defects in materials.");
                  (lit "Can I extend it?", lit "Yes, within 30 days.") ]
           ++ [lit "=== GENERAL WARRANTY INFORMATION ==="])
  = [ mkQA (lit "what is covered?") (lit "Defects in materials.");
      mkQA (lit "can i extend it?") (lit "Yes, within 30 days.") ].
Proof.
  rewrite written_pairs_are_read_back.
  - reflexivity.
  - repeat constructor.
  - repeat constructor.
  - repeat constructor.
Defined.

(** *** From the text of the fetcher to its lines *)

Lemma splitChar_nonempty sep s : splitChar sep s <> [].
Proof.
  destruct s as [|c s]; simpl; [discriminate|].
  destruct (chEq c sep); [discriminate|].
  destruct (splitChar sep s); discriminate.
Qed.

Lemma consHead_app c l l' :
  l <> [] -> consHead c (l ++ l') = consHead c l ++ l'.
Proof. destruct l; [congruence | reflexivity]. Qed.

Lemma splitChar_at sep b y :
  splitChar sep (b ++ sep :: y) = splitChar sep b ++ splitChar sep y.
Proof.
  induction b as [|c b IH]; simpl.
  - unfold chEq. now rewrite Ascii.eqb_refl.
  - rewrite IH. destruct (chEq c sep); [reflexivity|].
    apply consHead_app, splitChar_nonempty.
Qed.

Lemma splitChar_line sep x : ~ In sep x -> splitChar sep x = [x].
Proof.
  induction x as [|c x IH]; intros H; simpl; [reflexivity|].
  destruct (chEq c sep) eqn:E.
  - exfalso. apply H. left. unfold chEq in E.
    apply Ascii.eqb_eq in E. now subst.
  - rewrite IH; [reflexivity|]. intros Hin. apply H. now right.
Qed.

(** The lines of a text in which every line is ended by a line feed. *)
Definition ended (x : str) : Prop := x = [] \/ exists b, x = b ++ [nl].

Definition endedb (x : str) : bool :=
  match rev x with
  | [] => true
  | c :: _ => chEq c nl
  end.

Lemma endedb_ended x : endedb x = true -> ended x.
Proof.
  unfold endedb, ended. destruct (rev x) as [|c r] eqn:E; intros H.
  - left. apply (f_equal (@rev ascii)) in E. now rewrite rev_involutive in E.
  - right. exists (rev r). unfold chEq in H. apply Ascii.eqb_eq in H. subst c.
    apply (f_equal (@rev ascii)) in E. now rewrite rev_involutive in E.
Qed.

Definition body (x : str) : list str := removelast (splitChar nl x).

Lemma split_ended x y :
  ended x -> splitChar nl (x ++ y) = body x ++ splitChar nl y.
Proof.
  intros [->|[b ->]]; [reflexivity|].
  unfold body. rewrite <- app_assoc. cbn [app].
  rewrite splitChar_at.
  replace (b ++ [nl]) with (b ++ nl :: []) by reflexivity.
  rewrite splitChar_at. cbn [splitChar].
  rewrite removelast_app by discriminate. cbn [removelast].
  now rewrite app_nil_r.
Qed.

Lemma ended_app x y : ended x -> ended y -> ended (x ++ y).
Proof.
  intros Hx [->|[b ->]]; [now rewrite app_nil_r|].
  right. exists (x ++ b). now rewrite app_assoc.
Qed.

Lemma body_app x y : ended x -> body (x ++ y) = body x ++ body y.
Proof.
  intros Hx. unfold body at 1. rewrite split_ended by assumption.
  apply removelast_app, splitChar_nonempty.
Qed.

(** A text whose lines are ended and open no question. *)
Definition quietb (x : str) : bool :=
  endedb x && forallb opensNoQuestion (body x).

Definition quiet (x : str) : Prop :=
  ended x /\ Forall (fun raw => opensNoQuestion raw = true) (body x).

Lemma quietb_quiet x : quietb x = true -> quiet x.
Proof.
  unfold quietb, quiet. intros H. apply andb_true_iff in H.
  destruct H as [He Hf]. split; [now apply endedb_ended|].
  apply Forall_forall. now apply forallb_forall.
Qed.

Lemma quiet_app x y : quiet x -> quiet y -> quiet (x ++ y).
Proof.
  intros [Ex Fx] [Ey Fy]. split; [now apply ended_app|].
  rewrite body_app by assumption. apply Forall_app. now split.
Qed.

Lemma quiet_concat l : Forall quiet l -> quiet (List.concat l).
Proof.
  induction 1 as [|x l Hx Hl IH]; simpl.
  - split; [now left | constructor].
  - now apply quiet_app.
Qed.

(** Every record the scan can write is such a text. *)
Lemma recognize_quiet table n r :
  forallb (fun e => quietb (recordText (fst e) (fst (snd e)) (snd (snd e))))
          table = true ->
  recognize table n = Some r -> quiet r.
Proof.
  induction table as [|[k [per svcs]] table IH]; intros Hall; [discriminate|].
  cbn [forallb] in Hall. apply andb_true_iff in Hall. destruct Hall as [Hk Ht].
  cbn [recognize]. cbv zeta.
  destruct (includes _ k && _).
  - intros [= <-]. now apply quietb_quiet.
  - now apply IH.
Qed.

Lemma table_quiet :
  forallb (fun e => quietb (recordText (fst e) (fst (snd e)) (snd (snd e))))
          productWarrantyMap = true.
Proof. vm_compute. reflexivity. Qed.

Lemma recognized_quiet p : Forall quiet (recognized p).
Proof.
  unfold recognized. induction (nodes p) as [|n ns IH]; [constructor|].
  cbn [flat_map]. apply Forall_app. split; [|exact IH].
  destruct (recognize productWarrantyMap n) as [r|] eqn:E; [|constructor].
  constructor; [|constructor].
  exact (recognize_quiet _ _ _ table_quiet E).
Qed.

Definition faqHeading : str := lit "=== WARRANTY FAQs ===" ++ [nl; nl].

(** The text before the pairs. *)
Lemma before_pairs_quiet p :
  quiet ((if needsCatalog (scanned p) then scanned p ++ catalog
          else scanned p) ++ faqHeading).
Proof.
  assert (Hs : quiet (scanned p)).
  { unfold scanned. apply quiet_app.
    - apply quietb_quiet. vm_compute. reflexivity.
    - apply quiet_concat, recognized_quiet. }
  apply quiet_app.
  - destruct (needsCatalog (scanned p)); [|exact Hs].
    apply quiet_app; [exact Hs|]. apply quietb_quiet. vm_compute. reflexivity.
  - apply quietb_quiet. vm_compute. reflexivity.
Qed.

Definition pairText (qa : str * str) : str :=
  lit "Q: " ++ fst qa ++ [nl] ++ lit "A: " ++ snd qa ++ [nl; nl].

Definition oneLine (qa : str * str) : Prop :=
  ~ In nl (fst qa) /\ ~ In nl (snd qa).

Lemma pairText_lines qa :
  oneLine qa -> ended (pairText qa) /\ body (pairText qa) = pairLines qa.
Proof.
  intros [Hq Ha]. split.
  - right. exists (lit "Q: " ++ fst qa ++ [nl] ++ lit "A: " ++ snd qa ++ [nl]).
    unfold pairText. rewrite <- !app_assoc. reflexivity.
  - unfold body, pairText, pairLines.
    replace (lit "Q: " ++ fst qa ++ [nl] ++ lit "A: " ++ snd qa ++ [nl; nl])
      with ((lit "Q: " ++ fst qa) ++ nl :: (lit "A: " ++ snd qa) ++ nl :: [nl])
      by (rewrite <- !app_assoc; reflexivity).
    rewrite !splitChar_at.
    rewrite (splitChar_line nl (lit "Q: " ++ fst qa)).
    + rewrite (splitChar_line nl (lit "A: " ++ snd qa)).
      * reflexivity.
      * intros H. apply in_app_or in H. destruct H as [H|H]; [|tauto].
        vm_compute in H. intuition discriminate.
    + intros H. apply in_app_or in H. destruct H as [H|H]; [|tauto].
      vm_compute in H. intuition discriminate.
Qed.

Lemma pairs_lines pairs :
  Forall oneLine pairs ->
  ended (List.concat (map pairText pairs)) /\
  body (List.concat (map pairText pairs)) = flat_map pairLines pairs.
Proof.
  induction 1 as [|qa pairs Hqa Hp [IHe IHb]]; cbn [map List.concat flat_map].
  - split; [now left | reflexivity].
  - destruct (pairText_lines qa Hqa) as [He Hb]. split.
    + now apply ended_app.
    + rewrite body_app by assumption. now rewrite Hb, IHb.
Qed.

(** What the harvest keeps is tidy. *)
Lemma answerSized_tidy o :
  truthy (answerSized o) = true -> tidy (answerSized o) = true.
Proof.
  unfold answerSized. destruct o as [t|]; [|discriminate].
  destruct ((20 <? length (trim t)) && (length (trim t) <? 1000));
    [|discriminate].
  intros H. apply tidy_trim. destruct (trim t); [discriminate | discriminate].
Qed.

Lemma faqOf_tidy f qa : In qa (faqOf f) -> tidyPair qa.
Proof.
  unfold faqOf. destruct (looksLikeQuestion (trim (faqText f))) eqn:L;
    [|intros []].
  assert (Tq : tidy (trim (faqText f)) = true).
  { apply tidy_trim. unfold looksLikeQuestion in L.
    destruct (trim (faqText f)); [discriminate L | discriminate]. }
  destruct (negb (truthy (answerSized (faqNext f)))) eqn:N.
  - destruct (truthy (answerSized (faqParentNext f))) eqn:T; [|intros []].
    intros [<-|[]]. split; [exact Tq | now apply answerSized_tidy].
  - apply negb_false_iff in N. rewrite N.
    intros [<-|[]]. split; [exact Tq | now apply answerSized_tidy].
Qed.

Lemma harvest_tidy p :
  Forall tidyPair (firstn 20 (flat_map faqOf (faqNodes p))).
Proof.
  apply Forall_forall. intros qa H. apply firstn_In in H.
  apply in_flat_map in H. destruct H as [f [_ Hf]].
  exact (faqOf_tidy f qa Hf).
Qed.

(** X12. From the page to the pairs of the answer engine: the questions and
    answers the fetcher harvests, the first twenty, are the pairs
    [getAnswerFromData] parses from the text the fetcher returns, in the
    same order, the questions in lower case and the answers unchanged; this
    when no harvested question or answer holds a line feed.  No line of the
    records, of the known warranty periods or of the closing sections is
    taken for a question. *)
Theorem harvested_pairs_are_parsed p :
  Forall oneLine (firstn 20 (flat_map faqOf (faqNodes p))) ->
  parseQA (splitChar nl (warrantyText p))
  = map stored (firstn 20 (flat_map faqOf (faqNodes p))).
Proof.
  intros H1.
  destruct (pairs_lines _ H1) as [He Hb].
  destruct (before_pairs_quiet p) as [Pe Pf].
  assert (E : warrantyText p
              = ((if needsCatalog (scanned p) then scanned p ++ catalog
                  else scanned p) ++ faqHeading)
                ++ List.concat (map pairText
                                  (firstn 20 (flat_map faqOf (faqNodes p))))
                ++ footer).
  { unfold warrantyText, faqHeading, faqText20, pairText.
    rewrite <- !app_assoc. reflexivity. }
  rewrite E, split_ended by assumption.
  rewrite split_ended by assumption. rewrite Hb.
  apply read_back; [exact Pf | apply harvest_tidy |].
  apply Forall_forall. apply forallb_forall. vm_compute. reflexivity.
Qed.

Definition faqPage : Page :=
  mkPage []
    [ mkFaq (lit "  What does the warranty cover?  ")
        (Some (lit "Defects in materials and workmanship.")) None;
      mkFaq (lit "Contact") (Some (lit "Call us any time you like.")) None;
      mkFaq (lit "How do I book a repair?") None
        (Some (lit "Use the online repair booking form.")) ].

Lemma harvested_pairs_are_parsed_witness :
  parseQA (splitChar nl (warrantyText faqPage))
  = [ mkQA (lit "what does the warranty cover?")
        (lit "Defects in materials and workmanship.");
      mkQA (lit "how do i book a repair?")
        (lit "Use the online repair booking form.") ].
Proof.
  rewrite (harvested_pairs_are_parsed faqPage).
  - reflexivity.
  - repeat constructor; vm_compute; intuition discriminate.
Defined.

End RoundTrip.

(* ================================================================== *)
(** ** Further properties of the fetcher *)
(* ================================================================== *)

Module FetcherFacts.

Import QAFacts ProductFacts ExtractFacts RoundTrip.

Definition closing (p : Page) : str := faqHeading ++ faqText20 p ++ footer.

Lemma warrantyText_parts p :
  warrantyText p
  = (if needsCatalog (scanned p) then scanned p ++ catalog else scanned p)
    ++ closing p.
Proof. unfold warrantyText, closing, faqHeading. now rewrite <- !app_assoc. Qed.

Lemma part_concat (r : str) l : In r l -> part r (List.concat l).
Proof.
  induction l as [|x l IH]; [intros []|]. intros [->|H]; cbn [List.concat].
  - exists [], (List.concat l). reflexivity.
  - destruct (IH H) as [a [b E]]. exists (x ++ a), b.
    rewrite E. now rewrite <- app_assoc.
Qed.

Lemma part_app_l t x y : part t x -> part t (x ++ y).
Proof.
  intros [a [b ->]]. exists a, (b ++ y). now rewrite <- !app_assoc.
Qed.

Lemma part_app_r t x y : part t y -> part t (x ++ y).
Proof.
  intros [a [b ->]]. exists (x ++ a), b. now rewrite <- !app_assoc.
Qed.

Definition smartphoneRecord : str :=
  recordText (lit "smartphone") (lit "24 Months") threeServices.
Definition cookerHoodRecord : str :=
  recordText (lit "cooker hood") (lit "24 Months") threeServices.

Lemma no_record_text p :
  recognized p = [] -> warrantyText p = header ++ catalog ++ closing p.
Proof.
  intros H. rewrite warrantyText_parts. unfold scanned. rewrite H.
  cbn [List.concat]. rewrite app_nil_r.
  change (needsCatalog header) with true. cbv iota.
  now rewrite <- app_assoc.
Qed.

(** X13. When the known warranty periods are written: they are when the scan
    recognized nothing, and they are not when it recognized the smartphone
    or the cooker hood. *)
Theorem known_periods_written p :
  (recognized p = [] -> warrantyText p = header ++ catalog ++ closing p) /\
  (In smartphoneRecord (recognized p) \/ In cookerHoodRecord (recognized p) ->
   warrantyText p = scanned p ++ closing p).
Proof.
  split; [apply no_record_text|].
  - intros H. rewrite warrantyText_parts.
    assert (N : needsCatalog (scanned p) = false).
    { unfold needsCatalog, scanned. destruct H as [H|H].
      - assert (I : includes (header ++ List.concat (recognized p))
                      (lit "SMARTPHONE:") = true).
        { apply part_includes, part_app_r.
          eapply part_trans; [|apply part_concat; exact H].
          apply includes_part. vm_compute. reflexivity. }
        now rewrite I.
      - assert (I : includes (header ++ List.concat (recognized p))
                      (lit "COOKER HOOD:") = true).
        { apply part_includes, part_app_r.
          eapply part_trans; [|apply part_concat; exact H].
          apply includes_part. vm_compute. reflexivity. }
        rewrite I. now rewrite andb_false_r. }
    now rewrite N.
Qed.

Definition smartphonePage : Page :=
  mkPage [ mkNode (lit "Smartphone") (lit "Smartphone 24 months") [] ] [].

Lemma known_periods_written_witness :
  warrantyText (mkPage [] []) = header ++ catalog ++ closing (mkPage [] []) /\
  warrantyText smartphonePage = scanned smartphonePage ++ closing smartphonePage.
Proof.
  split.
  - apply (known_periods_written (mkPage [] [])). reflexivity.
  - apply (known_periods_written smartphonePage). left. left. reflexivity.
Defined.

(** The periods of the table and of the known warranty periods. *)
Definition periods : list str :=
  [lit "6 Months"; lit "12 Months"; lit "24 Months"; lit "36 Months"].

Definition periodLineOf (per : str) : str :=
  nl :: lit "- Warranty period: " ++ per ++ [nl].

Lemma recognize_period table n r :
  forallb (fun e =>
             existsb (strEq (fst (snd e))) periods &&
             includes (recordText (fst e) (fst (snd e)) (snd (snd e)))
                      (periodLineOf (fst (snd e))))
          table = true ->
  recognize table n = Some r ->
  exists per, In per periods /\ part (periodLineOf per) r.
Proof.
  induction table as [|[k [per svcs]] table IH]; intros Hall; [discriminate|].
  cbn [forallb] in Hall. apply andb_true_iff in Hall. destruct Hall as [Hk Ht].
  cbn [recognize]. cbv zeta.
  destruct (includes _ k && _).
  - intros [= <-]. cbn [fst snd] in Hk.
    apply andb_true_iff in Hk. destruct Hk as [Hin Hinc].
    exists per. split; [|now apply includes_part].
    apply existsb_exists in Hin. destruct Hin as [x [Hx Hs]].
    assert (per = x); [|now subst].
    clear - Hs. revert x Hs. induction per as [|c per IH]; intros [|d x]; simpl;
      try discriminate; [reflexivity|].
    intros H. apply andb_true_iff in H. destruct H as [E H].
    apply Ascii.eqb_eq in E. subst. f_equal. now apply IH.
  - now apply IH.
Qed.

(** X14. Whatever the page, the text the fetcher returns holds a line
    "- Warranty period: N Months" with N one of 6, 12, 24 and 36: from a
    record of the scan, or from the known warranty periods. *)
Theorem fetched_text_has_a_period p :
  exists per, In per periods /\ part (periodLineOf per) (warrantyText p).
Proof.
  destruct (recognized p) as [|r rs] eqn:E.
  - exists (lit "24 Months"). split; [vm_compute; tauto|].
    rewrite (no_record_text p E).
    apply part_app_r, part_app_l, includes_part. vm_compute. reflexivity.
  - assert (Hr : exists n, recognize productWarrantyMap n = Some r).
    { assert (Hin : In r (recognized p)) by (rewrite E; now left).
      unfold recognized in Hin. apply in_flat_map in Hin.
      destruct Hin as [n [_ Hn]]. exists n.
      destruct (recognize productWarrantyMap n) as [r'|]; [|destruct Hn].
      destruct Hn as [->|[]]. reflexivity. }
    destruct Hr as [n Hn].
    destruct (recognize_period productWarrantyMap n r) as [per [Hp Hpart]];
      [vm_compute; reflexivity | exact Hn |].
    exists per. split; [exact Hp|].
    rewrite warrantyText_parts. apply part_app_l.
    assert (Hs : part (periodLineOf per) (scanned p)).
    { unfold scanned. rewrite E. apply part_app_r. cbn [List.concat].
      now apply part_app_l. }
    destruct (needsCatalog (scanned p)); [now apply part_app_l | exact Hs].
Qed.

(** *** The known warranty periods and the product matcher *)

Definition noRecordText : str := header ++ catalog.

Lemma smartphone_loop tail :
  composeReply (productLoop (lit "smartphone") scan0 (body noRecordText ++ tail))
  = Some (lit "Warranty period: 12 Months. Our Samsung Authorised Service Partners offer both In and Out of warranty repairs.").
Proof. vm_compute. reflexivity. Qed.

(** X15. The known warranty periods write the header of the smartphone as
    "SMARTPHONE (including Certified Re-Newed model):", which is no header
    for the product matcher; the first header it accepts for the smartphone
    is the one of the buds and headphones, which contains "phone".  So on
    the text fetched from a page without a recognized record, every query
    matched to the smartphone is answered with the 12 months of the buds,
    and without a list of repair services. *)
Theorem smartphone_gets_the_period_of_the_buds userMessage p :
  findProduct productKeywords (toLowerCase userMessage)
    = Some (lit "smartphone") ->
  recognized p = [] ->
  getAnswerFromData userMessage (warrantyText p)
  = Some (lit "Warranty period: 12 Months. Our Samsung Authorised Service Partners offer both In and Out of warranty repairs.").
Proof.
  intros Hm Hr. rewrite (no_record_text p Hr).
  unfold getAnswerFromData.
  change (truthy (header ++ catalog ++ closing p)) with true.
  cbn [negb]. cbv zeta. unfold productStage. rewrite Hm.
  rewrite app_assoc. fold noRecordText.
  rewrite split_ended by (apply endedb_ended; vm_compute; reflexivity).
  rewrite smartphone_loop. reflexivity.
Qed.

Lemma smartphone_gets_the_period_of_the_buds_witness :
  getAnswerFromData (lit "How long is smartphone warranty?")
    (warrantyText (mkPage [] []))
  = Some (lit "Warranty period: 12 Months. Our Samsung Authorised Service Partners offer both In and Out of warranty repairs.").
Proof.
  apply smartphone_gets_the_period_of_the_buds; reflexivity.
Defined.

End FetcherFacts.

(* ================================================================== *)
(** ** Further properties of the composer *)
(* ================================================================== *)

Module ComposerMore.

Import ComposerFacts.

Lemma topicBlock_same_file disk disk' userMessage message ps topic fileName
  accept reply :
  fileNameFor topic = Some fileName ->
  disk fileName = disk' fileName ->
  topicBlock disk userMessage message ps topic accept reply
  = topicBlock disk' userMessage message ps topic accept reply.
Proof.
  intros Hn Hd. unfold topicBlock, getDataFromFile. now rewrite Hn, Hd.
Qed.

(** X16. The payments file has no part in a reply: two disks that differ in
    "payments.txt" only give the same reply and the same files touched, for
    every message.  The composer asks [getDataFromFile] for the topic
    "payments", which that function does not know. *)
Theorem payments_file_is_never_used disk disk' userMessage :
  (forall fileName, fileName <> lit "payments.txt" ->
                    disk fileName = disk' fileName) ->
  getImprovedMockResponse disk userMessage
  = getImprovedMockResponse disk' userMessage.
Proof.
  intros H. unfold getImprovedMockResponse. cbv zeta.
  rewrite !topicBlock_payments.
  rewrite (topicBlock_same_file disk disk' _ _ returnsPats (lit "returns")
             (lit "returns.txt")) by (auto; apply H; discriminate).
  rewrite (topicBlock_same_file disk disk' _ _ shippingPats (lit "shipping")
             (lit "shipping.txt")) by (auto; apply H; discriminate).
  rewrite (topicBlock_same_file disk disk' _ _ ordersPats (lit "orders")
             (lit "orders.txt")) by (auto; apply H; discriminate).
  rewrite (topicBlock_same_file disk disk' _ _ warrantyPats (lit "warranty")
             (lit "warranty.txt")) by (auto; apply H; discriminate).
  reflexivity.
Qed.

Definition paymentsDisk : Disk :=
  fun fileName =>
    if strEq fileName (lit "payments.txt")
    then Content (lit "PAYMENTS:" ++ [nl] ++ lit "We accept credit cards and bank transfers for every order placed." ++ [nl] ++ lit "END:")
    else Missing.

Lemma payments_file_is_never_used_witness :
  getImprovedMockResponse paymentsDisk (lit "Which credit cards do you accept?")
  = (defaultReply, []).
Proof.
  rewrite (payments_file_is_never_used paymentsDisk (fun _ => Missing)).
  - reflexivity.
  - intros fileName Hn. unfold paymentsDisk.
    destruct (strEq fileName (lit "payments.txt")) eqn:E; [|reflexivity].
    exfalso. apply Hn. clear Hn. revert E.
    generalize (lit "payments.txt"). induction fileName as [|c f IH];
      intros [|d g]; simpl; try discriminate; [reflexivity|].
    intros H. apply andb_true_iff in H. destruct H as [E H].
    apply Ascii.eqb_eq in E. subst. f_equal. now apply IH.
Defined.

(** A step of the cascade that, when it replies, replies with a text that
    is not empty. *)
Definition speaks (x : option str * list str) : Prop :=
  forall r, fst x = Some r -> r <> [].

Lemma speaks_canned test reply : reply <> [] -> speaks (canned test reply).
Proof.
  intros H r. unfold canned. destruct test; simpl; [|discriminate].
  intros [= <-]. exact H.
Qed.

Lemma speaks_andThen first rest :
  speaks first -> speaks rest -> speaks (andThen first rest).
Proof.
  intros Hf Hr r. destruct first as [[x|] t]; simpl.
  - intros [= <-]. now apply (Hf x).
  - apply Hr.
Qed.

Lemma speaks_topicBlock disk userMessage message ps topic accept reply :
  reply <> [] ->
  speaks (topicBlock disk userMessage message ps topic accept reply).
Proof.
  intros H r. unfold topicBlock.
  destruct (matches message ps); [|discriminate].
  destruct (getDataFromFile disk topic) as [[data|] touched]; [|discriminate].
  destruct (truthy data); [|discriminate].
  destruct (getAnswerFromData userMessage data) as [answer|].
  - destruct (truthy answer && accept answer) eqn:E; simpl; intros [= <-];
      [|exact H].
    apply andb_true_iff in E. destruct E as [E _].
    destruct answer; [discriminate E | discriminate].
  - simpl. intros [= <-]. exact H.
Qed.

Lemma composer_speaks disk userMessage :
  fst (getImprovedMockResponse disk userMessage) <> [].
Proof.
  unfold getImprovedMockResponse. cbv zeta. cbn [fst].
  match goal with
  | |- match fst ?out with _ => _ end <> _ =>
      assert (S : speaks out); [|destruct (fst out) as [r|] eqn:E;
                                 [exact (S r E) | discriminate]]
  end.
  repeat apply speaks_andThen;
    try (apply speaks_canned; discriminate);
    try (apply speaks_topicBlock; discriminate).
  - apply speaks_topicBlock. intros H.
    pose proof (ordersCanned_long (trim (toLowerCase userMessage))) as L.
    rewrite H in L. simpl in L. lia.
  - intros r. simpl. intros [= <-]. discriminate.
Qed.

(** X17. The composer always says something: its reply is never the empty text,
    whatever the message and whatever the files hold. *)
Theorem reply_is_never_empty disk userMessage :
  fst (getImprovedMockResponse disk userMessage) <> [].
Proof. apply composer_speaks. Qed.

End ComposerMore.

(* ================================================================== *)
(** ** Further properties of the generative responder *)
(* ================================================================== *)

Module ResponderMore.

Import Responder ResponderFacts.

Lemma final_reply fuel service disk userMessage n ws run :
  retries (service n) = None ->
  getHuggingFaceResponse (S fuel) service disk userMessage n ws = Some run ->
  requests run = S n /\ waits run = ws /\
  (reply run = fst (getImprovedMockResponse disk userMessage) \/
   exists g,
     service n = Generated (Some g) /\
     reply run = trim (removeFirst (prompt userMessage) (trim g)) /\
     5 < length (reply run)).
Proof.
  intros H. cbn [getHuggingFaceResponse]. unfold retries in H.
  destruct (service n) as [|s|s [e|]|[g|]];
    try (intros [= <-]; repeat split; left; reflexivity).
  - destruct ((s =? 503)%Z && nonZero (parsed e)); [discriminate|].
    intros [= <-]. repeat split. left. reflexivity.
  - destruct (truthy (trim g) &&
              (5 <? length (trim (removeFirst (prompt userMessage) (trim g)))))
      eqn:E; intros [= <-]; repeat split; [|left; reflexivity].
    right. exists g. repeat split.
    apply andb_true_iff in E. destruct E as [_ E]. now apply Nat.ltb_lt in E.
Qed.

Lemma run_shape service disk userMessage : forall fuel n ws run,
  getHuggingFaceResponse fuel service disk userMessage n ws = Some run ->
  exists k,
    requests run = S (n + k) /\
    length (waits run) = length ws + k /\
    (forall i, i < k -> retries (service (n + i)) <> None) /\
    retries (service (n + k)) = None /\
    (reply run = fst (getImprovedMockResponse disk userMessage) \/
     exists g,
       service (n + k) = Generated (Some g) /\
       reply run = trim (removeFirst (prompt userMessage) (trim g)) /\
       5 < length (reply run)).
Proof.
  induction fuel as [|fuel IH]; intros n ws run H; [discriminate|].
  destruct (retries (service n)) as [t|] eqn:Et.
  - rewrite (step_retry _ _ _ _ _ _ t Et) in H.
    destruct (IH _ _ _ H) as [k [Hq [Hw [Hr [Hf Hrep]]]]].
    exists (S k). rewrite length_app in Hw. simpl in Hw.
    replace (n + S k) with (S n + k) by lia.
    split; [lia|]. split; [lia|].
    split; [|split; [exact Hf | exact Hrep]].
    intros i Hi. destruct i as [|i].
    + rewrite Nat.add_0_r, Et. discriminate.
    + replace (n + S i) with (S n + i) by lia. apply Hr. lia.
  - destruct (final_reply _ _ _ _ _ _ _ Et H) as [Hq [Hw Hrep]].
    exists 0. rewrite Nat.add_0_r.
    split; [exact Hq|]. split; [rewrite Hw; lia|].
    split; [intros i Hi; lia|]. split; [exact Et | exact Hrep].
Qed.

(** X18. A call that returns has made one request more than it has waited; it
    has waited after each answer that reported the model as loading, and the
    answer it stopped at is the first that did not. *)
Theorem requests_are_waits_plus_one fuel service disk userMessage run :
  getHuggingFaceResponse fuel service disk userMessage 0 [] = Some run ->
  requests run = S (length (waits run)) /\
  (forall i, i < length (waits run) -> retries (service i) <> None) /\
  retries (service (length (waits run))) = None.
Proof.
  intros H. destruct (run_shape _ _ _ _ _ _ _ H) as [k [Hq [Hw [Hr [Hf _]]]]].
  simpl in *. subst k. auto.
Qed.

Lemma requests_are_waits_plus_one_witness :
  requests (mkRun (lit "Your order is on its way.") 3
              [(20 * 1000 + 2000)%Q; (20 * 1000 + 2000)%Q]) = 3.
Proof.
  apply (requests_are_waits_plus_one 5
           (loadingFor 2 (lit "Your order is on its way.")) noDisk
           (lit "order?")).
  reflexivity.
Defined.

(** X19. What a call returns is the reply of the composer, or the text of the
    last answer, trimmed and without the prompt, and then it is longer than
    five characters: a shorter generated text is never returned. *)
Theorem reply_is_generated_or_composed fuel service disk userMessage run :
  getHuggingFaceResponse fuel service disk userMessage 0 [] = Some run ->
  reply run = fst (getImprovedMockResponse disk userMessage) \/
  exists g,
    service (pred (requests run)) = Generated (Some g) /\
    reply run = trim (removeFirst (prompt userMessage) (trim g)) /\
    5 < length (reply run).
Proof.
  intros H. destruct (run_shape _ _ _ _ _ _ _ H) as [k [Hq [_ [_ [_ Hrep]]]]].
  simpl in *. rewrite Hq. exact Hrep.
Qed.

Lemma reply_is_generated_or_composed_witness :
  getHuggingFaceResponse 1 (fun _ => Generated (Some (lit " Sure. ")))
    noDisk (lit "thanks") 0 []
  = Some (mkRun thanksReply 1 []).
Proof.
  destruct (getHuggingFaceResponse 1 (fun _ => Generated (Some (lit " Sure. ")))
              noDisk (lit "thanks") 0 []) as [run|] eqn:E; [|discriminate E].
  destruct (reply_is_generated_or_composed _ _ _ _ _ E) as [H|[g [_ [_ H]]]];
    vm_compute in E; inversion E; reflexivity.
Defined.

(** X20. A call that returns never returns the empty text. *)
Theorem responder_reply_is_never_empty fuel service disk userMessage run :
  getHuggingFaceResponse fuel service disk userMessage 0 [] = Some run ->
  reply run <> [].
Proof.
  intros H.
  destruct (run_shape _ _ _ _ _ _ _ H) as [k [_ [_ [_ [_ Hrep]]]]].
  destruct Hrep as [E|[g [_ [_ L]]]].
  - rewrite E. apply ComposerMore.composer_speaks.
  - intros E. rewrite E in L. simpl in L. lia.
Qed.

Lemma responder_reply_is_never_empty_witness :
  reply (mkRun defaultReply 1 []) <> [].
Proof.
  apply (responder_reply_is_never_empty 1 (fun _ => Generated (Some []))
           noDisk (lit "ok")).
  reflexivity.
Defined.

End ResponderMore.

(* ================================================================== *)
(** ** Further properties of the cache and of the server around it *)
(* ================================================================== *)

Module CacheMore.

Import CacheFacts Server.

(** The calls made on the cache, one after the other. *)
Inductive Op :=
| Get (now : Z) (live : option str) (file : File)
| Clear.

Definition step (c : Cache) (op : Op) : Cache :=
  match op with
  | Get now live file => cacheAfter (getWarrantyWithCache now live file c)
  | Clear => clearWarrantyCache c
  end.

Definition runOps (ops : list Op) (c : Cache) : Cache := fold_left step ops c.

(** The cache is empty, or holds the text one of the calls [ops] obtained,
    from the site or from the file, with the time of that call. *)
Definition holdsAFetch (ops : list Op) (c : Cache) : Prop :=
  c = emptyCache \/
  exists text now live file,
    In (Get now live file) ops /\
    c = mkCache (Some text) (Some now) /\
    (live = Some text \/ (live = None /\ file = Content text)).

Lemma holdsAFetch_more ops op c : holdsAFetch ops c -> holdsAFetch (ops ++ [op]) c.
Proof.
  intros [H|[text [now [live [file [Hin H]]]]]]; [now left|].
  right. exists text, now, live, file. split; [|exact H].
  apply in_or_app. now left.
Qed.

Lemma step_holdsAFetch ops op c :
  holdsAFetch ops c -> holdsAFetch (ops ++ [op]) (step c op).
Proof.
  intros H. destruct op as [now live file|]; [|now left].
  unfold step, getWarrantyWithCache.
  destruct (fresh c now); [now apply holdsAFetch_more|].
  destruct live as [w|]; cbn [cacheAfter].
  - right. exists w, now, (Some w), file.
    split; [apply in_or_app; right; now left | auto].
  - destruct file as [| |text]; cbn [cacheAfter];
      try (now apply holdsAFetch_more).
    right. exists text, now, None, (Content text).
    split; [apply in_or_app; right; now left | auto].
Qed.

Lemma runOps_holdsAFetch ops : forall seen c,
  holdsAFetch seen c -> holdsAFetch (seen ++ ops) (runOps ops c).
Proof.
  induction ops as [|op ops IH]; intros seen c H.
  - now rewrite app_nil_r.
  - replace (seen ++ op :: ops) with ((seen ++ [op]) ++ ops)
      by (rewrite <- app_assoc; reflexivity).
    apply IH. now apply step_holdsAFetch.
Qed.

(** X21. Whatever calls of [getWarrantyWithCache] and [clearWarrantyCache] are
    made, in whatever order and at whatever times, the cache is either empty
    (no text and no timestamp) or holds, together, the text that one of the
    calls obtained from the site or, the site failing, from the file, and
    the time of that call.  A failed call and a call served from the cache
    write nothing. *)
Theorem cache_holds_a_fetched_text ops :
  holdsAFetch ops (runOps ops emptyCache).
Proof. apply (runOps_holdsAFetch ops [] emptyCache). now left. Qed.

(** X22. After [clearWarrantyCache] the next call consults the site, whatever
    the cache held and however recent it was, and returns the text of the
    site when the site answers. *)
Theorem clear_forces_a_fetch c now live file :
  let g := getWarrantyWithCache now live file (clearWarrantyCache c) in
  fetched g = true /\
  (forall warrantyData, live = Some warrantyData ->
     result g = Some warrantyData /\
     cacheAfter g = mkCache (Some warrantyData) (Some now)).
Proof.
  unfold getWarrantyWithCache, clearWarrantyCache.
  change (fresh emptyCache now) with false. cbv iota.
  split.
  - destruct live; [reflexivity|]. destruct file; reflexivity.
  - intros w ->. split; reflexivity.
Qed.

Lemma clear_forces_a_fetch_witness :
  let c := mkCache (Some (lit "old text")) (Some 1000%Z) in
  result (getWarrantyWithCache 2000 (Some (lit "new text")) Missing c)
    = Some (lit "old text") /\
  result (getWarrantyWithCache 2000 (Some (lit "new text")) Missing
            (clearWarrantyCache c))
    = Some (lit "new text").
Proof.
  split; [reflexivity|].
  apply (clear_forces_a_fetch (mkCache (Some (lit "old text")) (Some 1000%Z))
           2000 (Some (lit "new text")) Missing).
  reflexivity.
Defined.

(** X23. An entry that has reached the TTL is not served any more: the call
    consults the site, replaces the entry when the site answers, and when
    the site and the file both fail it fails, the old text still in the
    cache. *)
Theorem expired_entry_is_not_served text t now live file :
  (CACHE_DURATION <= now - t)%Z ->
  let c := mkCache (Some text) (Some t) in
  let g := getWarrantyWithCache now live file c in
  fetched g = true /\
  (forall warrantyData, live = Some warrantyData ->
     result g = Some warrantyData /\
     cacheAfter g = mkCache (Some warrantyData) (Some now)) /\
  (live = None -> unavailable file = true ->
     result g = None /\ cacheAfter g = c).
Proof.
  intros H c g.
  assert (F : fresh c now = false).
  { unfold fresh, c. cbn [data timestamp].
    assert (L : (now - t <? CACHE_DURATION)%Z = false)
      by (apply Z.ltb_ge; exact H).
    rewrite L. now rewrite andb_false_r. }
  unfold g, getWarrantyWithCache. rewrite F.
  split; [|split].
  - destruct live; [reflexivity|]. destruct file; reflexivity.
  - intros w ->. split; reflexivity.
  - intros -> Hu. destruct file; [split; reflexivity|split; reflexivity|].
    discriminate Hu.
Qed.

Lemma expired_entry_is_not_served_witness :
  let c := mkCache (Some (lit "old text")) (Some 1000%Z) in
  let g := getWarrantyWithCache 3601000 None Missing c in
  result g = None /\ cacheAfter g = c.
Proof.
  apply (expired_entry_is_not_served (lit "old text") 1000 3601000 None
           Missing); [vm_compute; discriminate | reflexivity | reflexivity].
Defined.

(** X24. [getWarrantyKnowledgeBase] gives no text exactly when the entry is not
    fresh, the site fails and the file cannot be read, at the first read
    and at the second.  When only the second read succeeds its text is
    returned and the cache is left as it was, so that the next call starts
    from the site again. *)
Theorem knowledge_base_second_read now live file file' c :
  (fst (getWarrantyKnowledgeBase now live file file' c) = None <->
     fresh c now = false /\ live = None /\
     unavailable file = true /\ unavailable file' = true) /\
  (forall text,
     fresh c now = false -> live = None -> unavailable file = true ->
     file' = Content text ->
     getWarrantyKnowledgeBase now live file file' c = (Some text, c)).
Proof.
  unfold getWarrantyKnowledgeBase, getWarrantyWithCache.
  destruct (fresh c now) eqn:F.
  - apply fresh_iff in F. destruct F as [d [t [Hd _]]]. simpl. rewrite Hd.
    split; [split; [discriminate | intros [? _]; discriminate]|].
    intros text H. discriminate H.
  - destruct live as [w|]; simpl.
    + split; [split; [discriminate | intros [_ [? _]]; discriminate]|].
      intros text _ H. discriminate H.
    + destruct file; simpl.
      * split.
        -- destruct file'; simpl; split; auto; try discriminate;
             intros [_ [_ [_ ?]]]; discriminate.
        -- intros text _ _ _ ->. reflexivity.
      * split.
        -- destruct file'; simpl; split; auto; try discriminate;
             intros [_ [_ [_ ?]]]; discriminate.
        -- intros text _ _ _ ->. reflexivity.
      * split; [split; [discriminate | intros [_ [_ [? _]]]; discriminate]|].
        intros text0 _ _ H. discriminate H.
Qed.

Lemma knowledge_base_second_read_witness :
  getWarrantyKnowledgeBase 1000 None Unreadable (Content (lit "TABLET:"))
    emptyCache
  = (Some (lit "TABLET:"), emptyCache).
Proof.
  apply (knowledge_base_second_read 1000 None Unreadable
           (Content (lit "TABLET:")) emptyCache); reflexivity.
Defined.

Lemma firstn_length_le {A} n (l : list A) : length (firstn n l) <= n.
Proof. rewrite length_firstn. apply Nat.le_min_l. Qed.

(** X25. GET /api/warranty-data: the source is reported as "live" for every text
    that is not empty, also for the text of the fallback file read while the
    site fails; "file" is reported only when there is no text.  The preview
    is never longer than 503 characters. *)
Theorem warranty_data_source now file text c :
  fresh c now = false ->
  file = Content text ->
  text <> [] ->
  let kb := fst (getWarrantyKnowledgeBase now None file file c) in
  kb = Some text /\
  source (warrantyDataEndpoint kb) = lit "live" /\
  (forall warrantyData,
     length (preview (warrantyDataEndpoint warrantyData)) <= 503 /\
     (source (warrantyDataEndpoint warrantyData) = lit "file" <->
      warrantyData = None \/ warrantyData = Some [])).
Proof.
  intros F -> Hne kb.
  assert (K : kb = Some text).
  { unfold kb, getWarrantyKnowledgeBase, getWarrantyWithCache.
    rewrite F. reflexivity. }
  split; [exact K|]. rewrite K. split.
  - destruct text; [congruence | reflexivity].
  - intros [[|d w]|]; cbn [warrantyDataEndpoint preview source].
    + split; [vm_compute; lia | split; auto].
    + split.
      * unfold substring0. rewrite length_app.
        pose proof (firstn_length_le 500 (d :: w)). simpl length at 2. lia.
      * split; [discriminate | intros [H|H]; discriminate].
    + split; [vm_compute; lia | split; auto].
Qed.

Lemma warranty_data_source_witness :
  source (warrantyDataEndpoint
            (fst (getWarrantyKnowledgeBase 1000 None (Content (lit "TABLET:"))
                    (Content (lit "TABLET:")) emptyCache)))
  = lit "live".
Proof.
  apply (warranty_data_source 1000 (Content (lit "TABLET:")) (lit "TABLET:")
           emptyCache); [reflexivity | reflexivity | discriminate].
Defined.

End CacheMore.
